(** * cactus/preprocessor/cutHeaders.py: header cutting and header tables

    A shallow embedding of [cut_header], [make_one_header_table] and
    [join_header_table].  Python values are modelled as follows:

    - [str] is a list of characters ([list ascii], the code points below
      256); literals are written [txt "..."];
    - [int] is [Z];
    - an optional configuration attribute ([None] or a value) is an [option];
    - an exception is a constructor of [exn], and a function that may raise
      returns a [result];
    - a file is the text it holds; the file store hands contents through
      unchanged. *)

From Stdlib Require Import ZArith Ascii String Decimal DecimalString.
From stdpp Require Import gmap strings list.

#[local] Set Warnings "-clear-no-such-hyp".

Abbreviation str := (list ascii).

Definition txt (s : string) : str := list_ascii_of_string s.

(** ** Exceptions and results *)

Inductive exn : Type :=
| RuntimeError (msg : str)
| NameError (name : string)
| AttributeError (attr : string)
| IndexError.

Inductive result (A : Type) : Type :=
| Ok (a : A)
| Raise (e : exn).
Arguments Ok {A} a.
Arguments Raise {A} e.

Definition bind {A B} (m : result A) (k : A → result B) : result B :=
  match m with
  | Ok a => k a
  | Raise e => Raise e
  end.

Notation "'do' x <- m ; k" := (bind m (λ x, k))
  (at level 10, x name, m at level 100, k at level 200,
   format "'[v' 'do'  x  <-  m ; '/' k ']'").

(** ** Python primitives used by the module *)

Module Py.

(** [len(l)] *)
Definition len {A} (l : list A) : Z := Z.of_nat (length l).

(** [enumerate(l)], counting from [i] *)
Fixpoint enumerate_from {A} (i : Z) (l : list A) : list (Z * A) :=
  match l with
  | [] => []
  | x :: l' => (i, x) :: enumerate_from (i + 1) l'
  end.

Definition enumerate {A} (l : list A) : list (Z * A) := enumerate_from 0 l.

(** [l[k]]: a negative index counts from the end, an index out of range
    raises [IndexError]. *)
Definition index {A} (l : list A) (k : Z) : result A :=
  let k' := (if k <? 0 then k + len l else k)%Z in
  if (k' <? 0)%Z then Raise IndexError
  else match l !! Z.to_nat k' with
       | Some x => Ok x
       | None => Raise IndexError
       end.

(** The bound of a slice, clamped as Python does: a negative bound counts
    from the end, and the result is kept within [0 .. len(l)]. *)
Definition clamp {A} (l : list A) (i : Z) : nat :=
  let i' := (if i <? 0 then Z.max 0 (i + len l) else Z.min i (len l))%Z in
  Z.to_nat i'.

(** [l[i:]] *)
Definition slice_from {A} (l : list A) (i : Z) : list A := drop (clamp l i) l.

(** [l[0:j]] *)
Definition slice_to {A} (l : list A) (j : Z) : list A := take (clamp l j) l.

(** [s.find(c)] for a one-character [c]: the lowest index of [c] in [s],
    or [-1]. *)
Fixpoint find_from (i : Z) (s : str) (c : ascii) : Z :=
  match s with
  | [] => (-1)%Z
  | x :: s' => if decide (x = c) then i else find_from (i + 1) s' c
  end.

Definition find (s : str) (c : ascii) : Z := find_from 0 s c.

(** [min(p :: ps)] on a non-empty list of integers *)
Definition min_of (p : Z) (ps : list Z) : Z := foldl Z.min p ps.

(** Truth value of an optional string: [None] and [""] are falsy. *)
Definition truthy (o : option str) : bool :=
  match o with
  | Some (_ :: _) => true
  | _ => false
  end.

(** The characters of an optional string once it is known to be truthy. *)
Definition chars (o : option str) : str := default [] o.

(** Truth value of an optional integer: [None] and [0] are falsy. *)
Definition truthy_int (o : option Z) : bool :=
  match o with
  | None | Some Z0 => false
  | Some _ => true
  end.

End Py.

(** ** Sequence records and the module's global names *)

Record SeqRecord : Type := mkSeqRecord {
  description : str;
  seq : str
}.

Inductive pyobj : Type :=
| PyModule (name : string)
| PyClass (name : string)
| PyFunction (name : string)
| PyRecord (r : SeqRecord).

(** The names bound at module level: the imports, the class and the four
    functions.  No module-level statement binds any other name, and a name
    that is neither here nor a builtin raises [NameError] when it is read. *)
Definition module_globals : gmap string pyobj :=
  list_to_map
    [ ("os", PyModule "os"); ("re", PyModule "re"); ("sys", PyModule "sys");
      ("shutil", PyModule "shutil"); ("SeqIO", PyModule "Bio.SeqIO");
      ("SeqRecord", PyClass "SeqRecord"); ("RoundedJob", PyClass "RoundedJob");
      ("cactus_call", PyFunction "cactus_call");
      ("RealtimeLogger", PyClass "RealtimeLogger");
      ("getOptionalAttrib", PyFunction "getOptionalAttrib");
      ("catFiles", PyFunction "catFiles"); ("Job", PyClass "Job");
      ("CutHeadersJob", PyClass "CutHeadersJob");
      ("cut_header", PyFunction "cut_header");
      ("make_cut_header_table", PyFunction "make_cut_header_table");
      ("make_one_header_table", PyFunction "make_one_header_table");
      ("join_header_table", PyFunction "join_header_table") ]%string.

Definition load_global (name : string) : result pyobj :=
  match module_globals !! name with
  | Some v => Ok v
  | None => Raise (NameError name)
  end.

(** [o.description] *)
Definition get_description (o : pyobj) : result str :=
  match o with
  | PyRecord r => Ok (description r)
  | _ => Raise (AttributeError "description")
  end.

(** ** [cut_header] *)

(** ["Error: ... removes entire header: {}".format(d)] *)
Definition empty_header_msg (d : str) : str :=
  txt "Error: applying cutHeaders preprocessor removes entire header: " ++ d.

(** Lines 65-76: the [if cutBefore:] block, returning the new [header]. *)
Definition cut_before_stage (header : str) (cutBefore : option str)
    (cutBeforeOcc : option Z) : result str :=
  if Py.truthy cutBefore then
    let occs :=
      (λ ic, ic.1) <$>
        filter (λ ic, ic.2 ∈ Py.chars cutBefore) (Py.enumerate header) in
    match occs with
    | [] => Ok header
    | _ :: _ =>
        do pos <- (if negb (Py.truthy_int cutBeforeOcc)
                   then Py.index occs (-1)
                   else Py.index occs
                          (Z.min (Py.len occs) (default 0%Z cutBeforeOcc) - 1));
        if (0 <=? pos)%Z then
          if (pos <? Py.len header - 1)%Z
          then Ok (Py.slice_from header (pos + 1))
          else Ok []
        else Ok header
    end
  else Ok header.

(** Lines 77-81: the [if cutAfter:] block, returning the new [header]. *)
Definition cut_after_stage (header : str) (cutAfter : option str) : str :=
  if Py.truthy cutAfter then
    let pos_list :=
      Py.find header <$>
        filter (λ c, (0 <= Py.find header c)%Z) (Py.chars cutAfter) in
    match pos_list with
    | [] => header
    | p :: ps => Py.slice_to header (Py.min_of p ps)
    end
  else header.

(** Lines 83-86: the emptiness check.  The argument of the [raise] reads the
    global name [seq_record] before the exception object is built. *)
Definition check_header (header : str) : result str :=
  match header with
  | [] =>
      do seq_record <- load_global "seq_record";
      do d <- get_description seq_record;
      Raise (RuntimeError (empty_header_msg d))
  | _ :: _ => Ok header
  end.

Definition cut_header (header : str) (cutBefore : option str)
    (cutBeforeOcc : option Z) (cutAfter : option str) : result str :=
  do header <- cut_before_stage header cutBefore cutBeforeOcc;
  check_header (cut_after_stage header cutAfter).

(** ** Header tables *)

Definition TAB : ascii := "009"%char.
Definition LF : ascii := "010"%char.
Definition CR : ascii := "013"%char.

(** [str(n)] for the length of a sequence *)
Definition str_of_nat (n : nat) : str :=
  txt (NilZero.string_of_uint (Nat.to_uint n)).

(** ['{}\t{}\t{}\t{}\n'.format(original, header, event, length)] *)
Definition format_row (original header event : str) (length : nat) : str :=
  original ++ TAB :: header ++ TAB :: event ++ TAB :: str_of_nat length ++ [LF].

Section TableBuilder.

(** The function called at line 130.  It is a parameter of the loop so that
    a statement can say the loop does not depend on it. *)
Variable cutter : str → option str → option Z → option str → result str.

(** Lines 128-131: the body of the loop over the records of one file. *)
Definition header_row (event : str) (cut_before : option str)
    (cut_before_occ : option Z) (cut_after : option str)
    (seq_record : SeqRecord) : result str :=
  let header := description seq_record in
  do header <- (if Py.truthy cut_before || Py.truthy cut_after
                then cutter (description seq_record)
                       cut_before cut_before_occ cut_after
                else Ok header);
  Ok (format_row (description seq_record) header event
        (length (seq seq_record))).

(** Lines 126-131: the loop, threading the text written so far. *)
Fixpoint write_rows (event : str) (cut_before : option str)
    (cut_before_occ : option Z) (cut_after : option str)
    (records : list SeqRecord) (table_file : str) : result str :=
  match records with
  | [] => Ok table_file
  | seq_record :: records' =>
      do row <- header_row event cut_before cut_before_occ cut_after seq_record;
      write_rows event cut_before cut_before_occ cut_after records'
        (table_file ++ row)
  end.

Definition make_one_header_table_with (fa : list SeqRecord) (event : str)
    (cut_before : option str) (cut_before_occ : option Z)
    (cut_after : option str) : result str :=
  write_rows event cut_before cut_before_occ cut_after fa [].

End TableBuilder.

Definition make_one_header_table :
    list SeqRecord → str → option str → option Z → option str → result str :=
  make_one_header_table_with cut_header.

(** Modelled from the spec: [catFiles] of [cactus.shared.common] is not part
    of the sources at hand; the join step "concatenates them in a stable,
    caller-determined order". *)
Definition catFiles (files : list str) : str := concat files.

(** Reading a file opened with [open(path, 'r')]: a carriage return, alone
    or followed by a line feed, is returned as one line feed. *)
Fixpoint universal_newlines (s : str) : str :=
  match s with
  | [] => []
  | c :: s' =>
      if decide (c = CR) then
        match s' with
        | c' :: s'' =>
            if decide (c' = LF) then LF :: universal_newlines s''
            else LF :: universal_newlines s'
        | [] => [LF]
        end
      else c :: universal_newlines s'
  end.

(** [for line in table_file]: every line keeps its line feed; the last one
    may lack it. *)
Fixpoint file_lines (s : str) : list str :=
  match s with
  | [] => []
  | c :: s' =>
      if decide (c = LF) then [LF] :: file_lines s'
      else match file_lines s' with
           | [] => [[c]]
           | line :: lines => (c :: line) :: lines
           end
  end.

(** The characters [str.rstrip()] removes, among code points below 256. *)
Definition is_space (c : ascii) : bool :=
  let n := nat_of_ascii c in
  ((9 <=? n) && (n <=? 13)) || ((28 <=? n) && (n <=? 32))
  || (n =? 133) || (n =? 160).

(** [s.rstrip()] *)
Fixpoint rstrip (s : str) : str :=
  match s with
  | [] => []
  | c :: s' =>
      match rstrip s' with
      | [] => if is_space c then [] else [c]
      | r => c :: r
      end
  end.

(** [s.split(sep)] for a one-character separator *)
Fixpoint split (sep : ascii) (s : str) : list str :=
  match s with
  | [] => [[]]
  | c :: s' =>
      if decide (c = sep) then [] :: split sep s'
      else match split sep s' with
           | [] => [[c]]
           | field :: fields => (c :: field) :: fields
           end
  end.

(** ["Error: fasta header {} found in more than one sample. ...".format(h)] *)
Definition duplicate_header_msg (h : str) : str :=
  txt "Error: fasta header " ++ h ++
  txt " found in more than one sample.  Headers must be unique to make table".

(** Lines 141-146: the loop of the uniqueness check, threading [contig_set]. *)
Fixpoint check_unique (lines : list str) (contig_set : gset str)
    : result (gset str) :=
  match lines with
  | [] => Ok contig_set
  | line :: lines' =>
      let toks := split TAB (rstrip line) in
      match toks with
      | [] => check_unique lines' contig_set
      | tok0 :: _ =>
          if decide (tok0 ∈ contig_set)
          then Raise (RuntimeError (duplicate_header_msg tok0))
          else check_unique lines' ({[tok0]} ∪ contig_set)
      end
  end.

Definition join_header_table (header_tables : list str) : result str :=
  let table := catFiles header_tables in
  do _ <- check_unique (file_lines (universal_newlines table)) ∅;
  Ok table.

(** Lines 112-121: one table per (file, event) pair, then the join.  The
    three cut parameters are the values read from the configuration. *)
Fixpoint header_tables (samples : list (list SeqRecord * str))
    (cut_before : option str) (cut_before_occ : option Z)
    (cut_after : option str) : result (list str) :=
  match samples with
  | [] => Ok []
  | (fa, event) :: samples' =>
      do t <- make_one_header_table fa event cut_before cut_before_occ cut_after;
      do ts <- header_tables samples' cut_before cut_before_occ cut_after;
      Ok (t :: ts)
  end.

Definition make_cut_header_table (input_fas : list (list SeqRecord))
    (event_names : list str) (cut_before : option str)
    (cut_before_occ : option Z) (cut_after : option str) : result str :=
  do ts <- header_tables (zip input_fas event_names)
             cut_before cut_before_occ cut_after;
  join_header_table ts.


(** * Notions used in the statements *)

(** The positions collected at line 66, for indices counted from [i]. *)
Definition occurrences_from (i : Z) (header cb : str) : list Z :=
  (λ ic : Z * ascii, ic.1) <$>
    filter (λ ic : Z * ascii, ic.2 ∈ cb) (Py.enumerate_from i header).

(** The number of characters of [header] that belong to [cb]. *)
Definition matches (cb header : str) : nat :=
  length (filter (λ c, c ∈ cb) header).

(** The part of [s] before its first [TAB] (all of [s] when it has none). *)
Fixpoint first_field (s : str) : str :=
  match s with
  | [] => []
  | c :: s' => if decide (c = TAB) then [] else c :: first_field s'
  end.

(** The value of the [original_header] column as the join step reads it from
    a line of the table: the first tab-separated field of the line without
    its trailing white space. *)
Definition row_key (line : str) : str := first_field (rstrip line).

(** The lines the join step iterates over. *)
Definition table_rows (table : str) : list str :=
  file_lines (universal_newlines table).

(** A string that holds no line break, as the description of a record read
    by a line-based parser. *)
Definition single_line (s : str) : Prop := (LF ∉ s) ∧ (CR ∉ s).

(** A per-sample input whose event name and descriptions are single lines. *)
Definition single_line_sample (sample : list SeqRecord * str) : Prop :=
  single_line (sample.2) ∧
  Forall (λ r, single_line (description r)) (sample.1).

(** The row of a record when the header is left as it is. *)
Definition uncut_row (event : str) (r : SeqRecord) : str :=
  format_row (description r) (description r) event (length (seq r)).

(** All records of all samples, in order. *)
Definition all_records (samples : list (list SeqRecord * str))
    : list SeqRecord :=
  concat (fst <$> samples).

(** The value found in the [original_header] column of the row of a record:
    its description up to the first tab, which is the whole description when
    it holds no tab. *)
Definition original_header_column (r : SeqRecord) : str :=
  first_field (description r).

(** A table that is empty or ends with a line feed, as every table written
    row by row. *)
Definition terminated (table : str) : Prop :=
  table = [] ∨ ∃ s, table = s ++ [LF].

(** A row without its line feed. *)
Definition row_body (original header event : str) (length : nat) : str :=
  original ++ TAB :: header ++ TAB :: event ++ TAB :: str_of_nat length.

Definition digit (c : ascii) : Prop := c ∈ txt "0123456789".

(** * The job that rewrites a file, and the configuration *)

(** A sequence record as lines 58-59 leave it, with its [id] and its
    [description] set: the record that line 60 hands to [SeqIO.write]. *)
Record RecordForWriter : Type := mkRecordForWriter {
  w_id : str;
  w_description : str;
  w_seq : str
}.

(** Lines 57-59: the header is cut and stored in the record. *)
Definition cut_record (cutBefore : option str) (cutBeforeOcc : option Z)
    (cutAfter : option str) (seq_record : SeqRecord) : result RecordForWriter :=
  do header <- cut_header (description seq_record)
                 cutBefore cutBeforeOcc cutAfter;
  Ok (mkRecordForWriter header header (seq seq_record)).

Section FastaWriter.

(** [SeqIO.write(seq_record, out_file, 'fasta')] is Biopython's, not this
    module's: the text it appends to the output file for a record is a
    parameter.  Nothing is assumed of how it prints [id] and [description]
    in the title line. *)
Variable fasta_text : RecordForWriter → str.

(** Lines 55-60: the loop, threading the text of the output file. *)
Fixpoint run_loop (cutBefore : option str) (cutBeforeOcc : option Z)
    (cutAfter : option str) (records : list SeqRecord)
    (out_file : str) : result str :=
  match records with
  | [] => Ok out_file
  | seq_record :: records' =>
      do w <- cut_record cutBefore cutBeforeOcc cutAfter seq_record;
      run_loop cutBefore cutBeforeOcc cutAfter records'
        (out_file ++ fasta_text w)
  end.

(** [CutHeadersJob.run], from the records of the input file to the text of
    the output file. *)
Definition CutHeadersJob_run (fasta : list SeqRecord) (cutBefore : option str)
    (cutBeforeOcc : option Z) (cutAfter : option str) : result str :=
  run_loop cutBefore cutBeforeOcc cutAfter fasta [].

End FastaWriter.

(** Modelled from the spec: [getOptionalAttrib] of [cactus.shared.common] is
    not part of the sources at hand; a preprocessor node of the configuration
    is given by the values it returns for the five attributes read at lines
    106-110, each optional. *)
Record PrepNode : Type := mkPrepNode {
  preprocessJob : option str;
  active : option bool;
  node_cutBefore : option str;
  node_cutBeforeOcc : option Z;
  node_cutAfter : option str
}.

(** The condition of line 107. *)
Definition is_active_cutHeaders (prep_node : PrepNode) : bool :=
  bool_decide (preprocessJob prep_node = Some (txt "cutHeaders"))
  && default false (active prep_node).

(** Lines 104-110: the loop over the preprocessor nodes, threading the three
    parameters. *)
Fixpoint cut_parameters_loop (prep_nodes : list PrepNode)
    (params : option str * option Z * option str)
    : option str * option Z * option str :=
  match prep_nodes with
  | [] => params
  | prep_node :: prep_nodes' =>
      cut_parameters_loop prep_nodes'
        (if is_active_cutHeaders prep_node
         then (node_cutBefore prep_node, node_cutBeforeOcc prep_node,
               node_cutAfter prep_node)
         else params)
  end.

Definition cut_parameters (prep_nodes : list PrepNode)
    : option str * option Z * option str :=
  cut_parameters_loop prep_nodes (None, None, None).

(** [make_cut_header_table] from the nodes of the configuration. *)
Definition make_cut_header_table_of_config (input_fas : list (list SeqRecord))
    (prep_nodes : list PrepNode) (event_names : list str) : result str :=
  let '(cut_before, cut_before_occ, cut_after) := cut_parameters prep_nodes in
  make_cut_header_table input_fas event_names
    cut_before cut_before_occ cut_after.

(** The row of a record, with the header that the record handed to the writer
    carries. *)
Definition written_row (event : str) (r : SeqRecord) (w : RecordForWriter)
    : str :=
  format_row (description r) (w_description w) event (length (seq r)).

(** The record handed to the writer when nothing is cut. *)
Definition unchanged_record (r : SeqRecord) : RecordForWriter :=
  mkRecordForWriter (description r) (description r) (seq r).

(** What relates an input record to the record the job hands to the writer
    for it: the header is the one [cut_header] returns, stored as [id] and as
    [description], and the sequence is kept. *)
Definition handed_to_writer (cutBefore : option str) (cutBeforeOcc : option Z)
    (cutAfter : option str) (r : SeqRecord) (w : RecordForWriter) : Prop :=
  cut_header (description r) cutBefore cutBeforeOcc cutAfter
    = Ok (w_description w) ∧
  w_id w = w_description w ∧ w_seq w = seq r.

(** * Properties of [cut_header] *)

(** ** Results *)

Lemma bind_Ok {A B} (a : A) (k : A → result B) : bind (Ok a) k = k a.
Proof. reflexivity. Qed.

Lemma check_header_nonempty (h : str) : h ≠ [] → check_header h = Ok h.
Proof. destruct h; [congruence | reflexivity]. Qed.

Lemma check_header_empty : check_header [] = Raise (NameError "seq_record").
Proof. vm_compute. reflexivity. Qed.

Lemma check_header_Ok (h h' : str) : check_header h = Ok h' → h' = h ∧ h ≠ [].
Proof.
  destruct h as [|c h]; [rewrite check_header_empty; discriminate|].
  simpl. intros [= <-]. split; [reflexivity | discriminate].
Qed.

(** ** Truth values *)

Lemma truthy_Some (cb : str) (c : ascii) : c ∈ cb → Py.truthy (Some cb) = true.
Proof. destruct cb; [intros H%elem_of_nil; contradiction | reflexivity]. Qed.

Lemma truthy_false_chars (o : option str) : Py.truthy o = false → Py.chars o = [].
Proof. destruct o as [[|? ?]|]; [reflexivity | discriminate | reflexivity]. Qed.

(** ** The positions collected at line 66 *)

Lemma occurrences_from_cons (i : Z) (c : ascii) (h cb : str) :
  occurrences_from i (c :: h) cb =
  if decide (c ∈ cb) then i :: occurrences_from (i + 1) h cb
  else occurrences_from (i + 1) h cb.
Proof.
  unfold occurrences_from. simpl. rewrite filter_cons. simpl.
  destruct (decide (c ∈ cb)); reflexivity.
Qed.

Lemma occurrences_from_app (i : Z) (h1 h2 cb : str) :
  occurrences_from i (h1 ++ h2) cb =
  occurrences_from i h1 cb ++ occurrences_from (i + Py.len h1) h2 cb.
Proof.
  revert i. induction h1 as [|c h1 IH]; intros i.
  - simpl. unfold Py.len. simpl. by rewrite Z.add_0_r.
  - rewrite <- app_comm_cons, !occurrences_from_cons, IH.
    replace (i + 1 + Py.len h1)%Z with (i + Py.len (c :: h1))%Z
      by (unfold Py.len; simpl; lia).
    destruct (decide (c ∈ cb)); reflexivity.
Qed.

Lemma occurrences_from_none (i : Z) (h cb : str) :
  Forall (λ c, c ∉ cb) h → occurrences_from i h cb = [].
Proof.
  intros H. revert i. induction H as [|c h Hc _ IH]; intros i; [reflexivity|].
  rewrite occurrences_from_cons, decide_False by exact Hc. apply IH.
Qed.

Lemma occurrences_from_length (i : Z) (h cb : str) :
  length (occurrences_from i h cb) = matches cb h.
Proof.
  unfold matches. revert i. induction h as [|c h IH]; intros i; [reflexivity|].
  rewrite occurrences_from_cons, filter_cons.
  destruct (decide (c ∈ cb)); simpl; by rewrite IH.
Qed.

Lemma matches_app (cb h1 h2 : str) :
  matches cb (h1 ++ h2) = matches cb h1 + matches cb h2.
Proof. unfold matches. by rewrite filter_app, length_app. Qed.

Lemma matches_cons_in (cb : str) (c : ascii) (h : str) :
  c ∈ cb → matches cb (c :: h) = S (matches cb h).
Proof. intros H. unfold matches. by rewrite filter_cons_True. Qed.

Lemma matches_none (cb h : str) : Forall (λ c, c ∉ cb) h → matches cb h = 0.
Proof.
  intros H. rewrite <- (occurrences_from_length 0).
  by rewrite occurrences_from_none.
Qed.

(** The positions of a header split at one of its matching characters. *)
Lemma occurrences_split (pre : str) (c : ascii) (suf cb : str) :
  c ∈ cb →
  occurrences_from 0 (pre ++ c :: suf) cb =
  occurrences_from 0 pre cb ++
    Py.len pre :: occurrences_from (Py.len pre + 1) suf cb.
Proof.
  intros Hc. rewrite occurrences_from_app, occurrences_from_cons.
  rewrite decide_True by exact Hc. reflexivity.
Qed.

(** ** Indexing and slicing *)

(** Settles a boolean comparison of lengths. *)
Ltac len_cmp :=
  first [apply Z.ltb_ge | apply Z.ltb_lt | apply Z.leb_le | apply Z.leb_gt];
  unfold Py.len; rewrite ?length_app; simpl; lia.

Lemma index_middle {A} (l1 : list A) (x : A) (l2 : list A) (k : Z) :
  (if k <? 0 then k + Py.len (l1 ++ x :: l2) else k)%Z = Py.len l1 →
  Py.index (l1 ++ x :: l2) k = Ok x.
Proof.
  intros Hk. unfold Py.index. simpl. rewrite Hk.
  assert ((Py.len l1 <? 0)%Z = false) as -> by len_cmp.
  unfold Py.len. rewrite Nat2Z.id.
  by rewrite list_lookup_middle.
Qed.

Lemma slice_from_split {A} (pre : list A) (x : A) (suf : list A) :
  Py.slice_from (pre ++ x :: suf) (Py.len pre + 1) = suf.
Proof.
  unfold Py.slice_from, Py.clamp.
  assert ((Py.len pre + 1 <? 0)%Z = false) as -> by len_cmp.
  unfold Py.len. rewrite length_app. simpl.
  rewrite Z.min_l by lia.
  replace (Z.to_nat (Z.of_nat (length pre) + 1)) with (length pre + 1) by lia.
  rewrite drop_app_ge by lia.
  replace (length pre + 1 - length pre) with 1 by lia. reflexivity.
Qed.

(** Cutting at the matching character whose position the index selects. *)
Lemma cut_before_stage_split (pre : str) (c : ascii) (suf cb : str)
    (occ : option Z) :
  c ∈ cb →
  (let occs := occurrences_from 0 (pre ++ c :: suf) cb in
   let k := (if negb (Py.truthy_int occ) then -1
             else Z.min (Py.len occs) (default 0 occ) - 1)%Z in
   (if k <? 0 then k + Py.len occs else k)%Z = Z.of_nat (matches cb pre)) →
  cut_before_stage (pre ++ c :: suf) (Some cb) occ = Ok suf.
Proof.
  intros Hc Hk. unfold cut_before_stage.
  rewrite (truthy_Some cb c Hc). simpl Py.chars.
  change ((λ ic : Z * ascii, ic.1) <$> filter _ (Py.enumerate _))
    with (occurrences_from 0 (pre ++ c :: suf) cb).
  simpl in Hk. revert Hk. rewrite (occurrences_split pre c suf cb Hc).
  set (l1 := occurrences_from 0 pre cb).
  set (l2 := occurrences_from (Py.len pre + 1) suf cb).
  intros Hk.
  assert (Z.of_nat (matches cb pre) = Py.len l1) as Hl1
    by (unfold l1, Py.len; by rewrite occurrences_from_length).
  rewrite Hl1 in Hk.
  destruct (l1 ++ Py.len pre :: l2) as [|z zs] eqn:E;
    [by destruct l1|]. rewrite <- E in *.
  assert (Py.index (l1 ++ Py.len pre :: l2)
            (if negb (Py.truthy_int occ) then -1
             else Z.min (Py.len (l1 ++ Py.len pre :: l2)) (default 0 occ) - 1)%Z
          = Ok (Py.len pre)) as Hidx.
  { destruct (negb (Py.truthy_int occ)); by apply index_middle. }
  destruct (negb (Py.truthy_int occ)); rewrite Hidx; simpl;
    (assert ((0 <=? Py.len pre)%Z = true) as -> by len_cmp);
    (destruct suf as [|s suf];
     [ assert ((Py.len pre <? Py.len (pre ++ [c]) - 1)%Z = false) as ->
         by len_cmp; reflexivity
     | assert ((Py.len pre <? Py.len (pre ++ c :: s :: suf) - 1)%Z = true) as ->
         by len_cmp;
       by rewrite slice_from_split ]).
Qed.

Lemma slice_to_split {A} (pre : list A) (x : A) (suf : list A) :
  Py.slice_to (pre ++ x :: suf) (Py.len pre) = pre.
Proof.
  unfold Py.slice_to, Py.clamp.
  assert ((Py.len pre <? 0)%Z = false) as -> by len_cmp.
  unfold Py.len. rewrite length_app. simpl.
  rewrite Z.min_l by lia. rewrite Nat2Z.id.
  apply take_app_length.
Qed.

(** ** [str.find] and the minimum of line 80 *)

Lemma find_from_notin (i : Z) (s : str) (c : ascii) :
  c ∉ s → Py.find_from i s c = (-1)%Z.
Proof.
  revert i. induction s as [|x s IH]; intros i Hc; [reflexivity|].
  apply not_elem_of_cons in Hc as [Hx Hs]. simpl.
  rewrite decide_False by congruence. by apply IH.
Qed.

Lemma find_from_app_notin (i : Z) (pre s : str) (c : ascii) :
  c ∉ pre → Py.find_from i (pre ++ s) c = Py.find_from (i + Py.len pre) s c.
Proof.
  revert i. induction pre as [|x pre IH]; intros i Hc.
  - simpl. unfold Py.len. simpl. by rewrite Z.add_0_r.
  - apply not_elem_of_cons in Hc as [Hx Hs]. simpl.
    rewrite decide_False by congruence. rewrite IH by exact Hs.
    f_equal. unfold Py.len. simpl. lia.
Qed.

Lemma find_from_range (i : Z) (s : str) (c : ascii) :
  Py.find_from i s c = (-1)%Z ∨ (i ≤ Py.find_from i s c)%Z.
Proof.
  revert i. induction s as [|x s IH]; intros i; [by left|].
  simpl. destruct (decide (x = c)); [right; lia|].
  destruct (IH (i + 1)%Z) as [->|H]; [by left | right; lia].
Qed.

Lemma min_of_le (m p : Z) (ps : list Z) :
  (m ≤ p)%Z → Forall (λ q, (m ≤ q)%Z) ps → (m ≤ Py.min_of p ps)%Z.
Proof.
  unfold Py.min_of. intros Hp Hps. revert p Hp.
  induction Hps as [|q ps Hq _ IH]; intros p Hp; [exact Hp|].
  simpl. apply IH. lia.
Qed.

Lemma min_of_le_first (p : Z) (ps : list Z) : (Py.min_of p ps ≤ p)%Z.
Proof.
  unfold Py.min_of. revert p. induction ps as [|q ps IH]; intros p; simpl.
  - lia.
  - specialize (IH (p `min` q)%Z). lia.
Qed.

Lemma min_of_elem (m p : Z) (ps : list Z) :
  m ∈ p :: ps → (Py.min_of p ps ≤ m)%Z.
Proof.
  intros [->|Hm]%elem_of_cons; [apply min_of_le_first|].
  unfold Py.min_of. revert p. induction ps as [|q ps IH]; intros p.
  - by apply elem_of_nil in Hm.
  - simpl. apply elem_of_cons in Hm as [->|Hm].
    + pose proof (min_of_le_first (p `min` q)%Z ps) as H.
      unfold Py.min_of in H. lia.
    + by apply IH.
Qed.

(** ** The two stages on a header they do not match *)

Lemma cut_before_stage_falsy (h : str) (cb : option str) (occ : option Z) :
  Py.truthy cb = false → cut_before_stage h cb occ = Ok h.
Proof. intros H. unfold cut_before_stage. by rewrite H. Qed.

Lemma cut_before_stage_no_match (h : str) (cb : option str) (occ : option Z) :
  Forall (λ x, x ∉ Py.chars cb) h → cut_before_stage h cb occ = Ok h.
Proof.
  intros H. unfold cut_before_stage.
  destruct (Py.truthy cb); [|reflexivity].
  change ((λ ic : Z * ascii, ic.1) <$> filter _ (Py.enumerate _))
    with (occurrences_from 0 h (Py.chars cb)).
  by rewrite occurrences_from_none.
Qed.

Lemma cut_after_stage_falsy (h : str) (ca : option str) :
  Py.truthy ca = false → cut_after_stage h ca = h.
Proof. intros H. unfold cut_after_stage. by rewrite H. Qed.

Lemma cut_after_stage_no_match (h : str) (ca : option str) :
  Forall (λ x, x ∉ Py.chars ca) h → cut_after_stage h ca = h.
Proof.
  intros H. unfold cut_after_stage.
  destruct (Py.truthy ca); [|reflexivity].
  assert (filter (λ c, (0 ≤ Py.find h c)%Z) (Py.chars ca) = []) as ->;
    [|reflexivity].
  apply elem_of_nil_inv. intros c [Hpos Hc]%list_elem_of_filter.
  unfold Py.find in Hpos. rewrite find_from_notin in Hpos; [lia|].
  intros Hin. rewrite Forall_forall in H. by apply (H c).
Qed.

(** The cut-after stage on a header split at its first matching character. *)
Lemma cut_after_stage_split (pre : str) (c : ascii) (suf ca : str) :
  c ∈ ca → Forall (λ x, x ∉ ca) pre →
  cut_after_stage (pre ++ c :: suf) (Some ca) = pre.
Proof.
  intros Hc Hpre. unfold cut_after_stage.
  rewrite (truthy_Some ca c Hc). simpl Py.chars.
  set (h := pre ++ c :: suf).
  set (pos_list := Py.find h <$> filter (λ x, (0 ≤ Py.find h x)%Z) ca).
  assert (∀ x, x ∈ ca → x ∉ pre) as Hout.
  { intros x Hx Hin. rewrite Forall_forall in Hpre. by apply (Hpre x). }
  assert (Py.find h c = Py.len pre) as Hfc.
  { unfold Py.find, h. rewrite find_from_app_notin by auto.
    simpl. by rewrite decide_True. }
  assert (Py.len pre ∈ pos_list) as Hin.
  { unfold pos_list. apply list_elem_of_fmap. exists c. split; [done|].
    apply list_elem_of_filter. split; [|done]. rewrite Hfc. unfold Py.len. lia. }
  assert (Forall (λ q, (Py.len pre ≤ q)%Z) pos_list) as Hall.
  { apply Forall_forall. intros q Hq. unfold pos_list in Hq.
    apply list_elem_of_fmap in Hq as (x & -> & Hx).
    apply list_elem_of_filter in Hx as [Hpos Hx].
    unfold Py.find, h in *. rewrite find_from_app_notin in * by auto.
    destruct (find_from_range (0 + Py.len pre) (c :: suf) x) as [E|E]; lia. }
  destruct pos_list as [|p ps]; [by apply elem_of_nil in Hin|].
  assert (Py.min_of p ps = Py.len pre) as ->.
  { apply Z.le_antisymm; [by apply min_of_elem|].
    apply Forall_cons in Hall as [Hp Hps]. by apply min_of_le. }
  apply slice_to_split.
Qed.

(** ** Splitting a header at a matching character *)

(** A header with [m] or more matching characters splits at the [m]-th. *)
Lemma nth_match_split (cb h : str) (m : nat) :
  1 ≤ m ≤ matches cb h →
  ∃ pre c suf, h = pre ++ c :: suf ∧ c ∈ cb ∧ S (matches cb pre) = m.
Proof.
  revert m. induction h as [|x h IH]; intros m [Hm1 Hm2].
  - unfold matches in Hm2. simpl in Hm2. lia.
  - destruct (decide (x ∈ cb)) as [Hx|Hx].
    + rewrite matches_cons_in in Hm2 by exact Hx.
      destruct (decide (m = 1)) as [->|Hne].
      * exists [], x, h. by repeat split.
      * destruct (IH (m - 1)) as (pre & c & suf & -> & Hc & Hn); [lia|].
        exists (x :: pre), c, suf. repeat split; [done|].
        rewrite matches_cons_in by exact Hx. lia.
    + assert (matches cb (x :: h) = matches cb h) as E
        by (unfold matches; by rewrite filter_cons_False).
      rewrite E in Hm2.
      destruct (IH m) as (pre & c & suf & -> & Hc & Hn); [lia|].
      exists (x :: pre), c, suf. repeat split; [done|].
      assert (matches cb (x :: pre) = matches cb pre) as ->
        by (unfold matches; by rewrite filter_cons_False).
      exact Hn.
Qed.

(** A header that contains a matching character splits at the last one. *)
Lemma last_match_split (cb h : str) :
  (∃ x, x ∈ h ∧ x ∈ cb) →
  ∃ pre c suf, h = pre ++ c :: suf ∧ c ∈ cb ∧ Forall (λ x, x ∉ cb) suf.
Proof.
  induction h as [|y h IH]; intros (x & Hx & Hcb).
  - by apply elem_of_nil in Hx.
  - destruct (decide (Exists (λ x, x ∈ cb) h)) as [He|Hn].
    + apply Exists_exists in He as (z & Hz & Hzc).
      destruct IH as (pre & c & suf & -> & Hc & Hs); [by exists z|].
      by exists (y :: pre), c, suf.
    + apply not_Exists_Forall in Hn; [|intros ?; apply _].
      exists [], y, h. repeat split; [|exact Hn].
      apply elem_of_cons in Hx as [->|Hx]; [done|].
      rewrite Forall_forall in Hn. by destruct (Hn x Hx).
Qed.

(** ** The claims about [cut_header] *)

Lemma cut_header_stages (h h1 : str) (cb : option str) (occ : option Z)
    (ca : option str) :
  cut_before_stage h cb occ = Ok h1 →
  cut_header h cb occ ca = check_header (cut_after_stage h1 ca).
Proof. intros H. unfold cut_header. by rewrite H. Qed.

(** C1: when [cutBeforeOcc] is unset or zero, a header whose last character
    of the [cutBefore] set is [c] (nothing after it matches) loses the prefix
    up to and including [c]: the cut-before stage leaves [suf], the cut-after
    stage then works on [suf], and with no [cutAfter] a non-empty [suf] is
    returned.  [last_match_split] shows every header with a matching
    character has this shape. *)
Theorem cut_header_last_occurrence (pre : str) (c : ascii) (suf cb : str)
    (occ : option Z) (ca : option str) :
  c ∈ cb →
  Forall (λ x, x ∉ cb) suf →
  Py.truthy_int occ = false →
  cut_before_stage (pre ++ c :: suf) (Some cb) occ = Ok suf ∧
  cut_header (pre ++ c :: suf) (Some cb) occ ca
    = check_header (cut_after_stage suf ca) ∧
  (Py.truthy ca = false → suf ≠ [] →
   cut_header (pre ++ c :: suf) (Some cb) occ ca = Ok suf).
Proof.
  intros Hc Hsuf Hocc.
  assert (cut_before_stage (pre ++ c :: suf) (Some cb) occ = Ok suf) as Hb.
  { apply cut_before_stage_split; [exact Hc|]. simpl. rewrite Hocc. simpl.
    unfold Py.len. rewrite occurrences_from_length, matches_app.
    rewrite matches_cons_in by exact Hc. rewrite (matches_none cb suf) by exact Hsuf.
    lia. }
  split; [exact Hb|]. split; [by apply cut_header_stages|].
  intros Hca Hne. rewrite (cut_header_stages _ _ _ _ _ Hb).
  rewrite cut_after_stage_falsy by exact Hca. by apply check_header_nonempty.
Qed.

Lemma cut_header_last_occurrence_witness :
  cut_header (txt "HG02055#1#h1tg000001l") (Some (txt "#")) None (Some (txt ""))
  = Ok (txt "h1tg000001l").
Proof.
  apply (cut_header_last_occurrence (txt "HG02055#1") "#"%char
           (txt "h1tg000001l") (txt "#") None (Some (txt ""))).
  - vm_compute. apply list_elem_of_here.
  - apply Forall_forall. intros x Hx Hc.
    apply list_elem_of_singleton in Hc as ->. revert Hx. vm_compute.
    intros Hx. repeat (apply elem_of_cons in Hx as [Hx|Hx]; [discriminate|]).
    by apply elem_of_nil in Hx.
  - reflexivity.
  - reflexivity.
  - discriminate.
Defined.

(** C2: for a positive [cutBeforeOcc = k] and a header with [n >= 1] matching
    characters, the cut is made strictly after the matching character that has
    exactly [min(n, k) - 1] matching characters before it, that is the one
    with 1-based index [min(n, k)].  [nth_match_split] shows the header
    splits there. *)
Theorem cut_header_clamped_occurrence (pre : str) (c : ascii) (suf cb : str)
    (k : Z) (ca : option str) :
  c ∈ cb →
  (0 < k)%Z →
  (Z.of_nat (matches cb pre) + 1
   = Z.min (Z.of_nat (matches cb (pre ++ c :: suf))) k)%Z →
  cut_before_stage (pre ++ c :: suf) (Some cb) (Some k) = Ok suf ∧
  cut_header (pre ++ c :: suf) (Some cb) (Some k) ca
    = check_header (cut_after_stage suf ca) ∧
  (Py.truthy ca = false → suf ≠ [] →
   cut_header (pre ++ c :: suf) (Some cb) (Some k) ca = Ok suf).
Proof.
  intros Hc Hk Hm.
  assert (cut_before_stage (pre ++ c :: suf) (Some cb) (Some k) = Ok suf) as Hb.
  { apply cut_before_stage_split; [exact Hc|].
    assert (Py.truthy_int (Some k) = true) as Ht by (destruct k; done || lia).
    cbv zeta. rewrite Ht. cbn [negb default].
    unfold Py.len, id. rewrite occurrences_from_length.
    assert ((Z.of_nat (matches cb (pre ++ c :: suf)) `min` k - 1 <? 0)%Z
            = false) as -> by (apply Z.ltb_ge; lia).
    lia. }
  split; [exact Hb|]. split; [by apply cut_header_stages|].
  intros Hca Hne. rewrite (cut_header_stages _ _ _ _ _ Hb).
  rewrite cut_after_stage_falsy by exact Hca. by apply check_header_nonempty.
Qed.

Lemma cut_header_clamped_occurrence_witness :
  cut_header (txt "HG02055#1#h1tg000001l#EBV") (Some (txt "#")) (Some 2%Z)
    (Some (txt ""))
  = Ok (txt "h1tg000001l#EBV").
Proof.
  apply (cut_header_clamped_occurrence (txt "HG02055#1") "#"%char
           (txt "h1tg000001l#EBV") (txt "#") 2 (Some (txt ""))).
  - vm_compute. apply list_elem_of_here.
  - lia.
  - vm_compute. reflexivity.
  - reflexivity.
  - discriminate.
Defined.

(** The requested occurrence exceeds the number of matches: the last one is
    used. *)
Example cut_header_clamped_example :
  cut_header (txt "a#b#c") (Some (txt "#")) (Some 7%Z) None = Ok (txt "c").
Proof. vm_compute. reflexivity. Qed.

(** Whenever the two stages leave nothing of the header, the [raise] statement
    fails while building its message: the name [seq_record] is not bound. *)
Lemma cut_header_emptied (h h1 : str) (cb : option str) (occ : option Z)
    (ca : option str) :
  cut_before_stage h cb occ = Ok h1 →
  cut_after_stage h1 ca = [] →
  cut_header h cb occ ca = Raise (NameError "seq_record").
Proof.
  intros Hb Ha. rewrite (cut_header_stages _ _ _ _ _ Hb), Ha.
  apply check_header_empty.
Qed.

(** C3: on the header ["X"] cut before ['X'], the header is emptied and the
    call fails, but with a [NameError] about [seq_record]: no [RuntimeError]
    is raised and the message does not contain the header. *)
Theorem cut_header_emptied_raises_NameError :
  cut_header (txt "X") (Some (txt "X")) None (Some (txt ""))
    = Raise (NameError "seq_record") ∧
  ∀ msg, cut_header (txt "X") (Some (txt "X")) None (Some (txt ""))
           ≠ Raise (RuntimeError msg).
Proof.
  assert (cut_header (txt "X") (Some (txt "X")) None (Some (txt ""))
          = Raise (NameError "seq_record")) as E by (vm_compute; reflexivity).
  split; [exact E|]. intros msg. rewrite E. discriminate.
Qed.

(** C4: with a non-empty [cutAfter] set [ca], let [h1] be the header as the
    cut-before stage leaves it.  If [h1] splits as [pre ++ c :: suf] with [c]
    in [ca] and no character of [pre] in [ca] (so [c] stands at the earliest
    position of any [cutAfter] character), the header is truncated to [pre],
    which is returned when it is not empty; if no character of [h1] is in
    [ca], [h1] is left unchanged. *)
Theorem cut_header_cut_after (header : str) (cb : option str)
    (occ : option Z) (ca h1 : str) :
  ca ≠ [] →
  cut_before_stage header cb occ = Ok h1 →
  (∀ pre c suf,
     h1 = pre ++ c :: suf → c ∈ ca → Forall (λ x, x ∉ ca) pre →
     cut_after_stage h1 (Some ca) = pre ∧
     (pre ≠ [] → cut_header header cb occ (Some ca) = Ok pre)) ∧
  (Forall (λ x, x ∉ ca) h1 →
   cut_after_stage h1 (Some ca) = h1 ∧
   (h1 ≠ [] → cut_header header cb occ (Some ca) = Ok h1)).
Proof.
  intros _ Hb. split.
  - intros pre c suf -> Hc Hpre.
    pose proof (cut_after_stage_split pre c suf ca Hc Hpre) as Ha.
    split; [exact Ha|]. intros Hne.
    rewrite (cut_header_stages _ _ _ _ _ Hb), Ha.
    by apply check_header_nonempty.
  - intros Hno.
    pose proof (cut_after_stage_no_match h1 (Some ca) Hno) as Ha.
    split; [exact Ha|]. intros Hne.
    rewrite (cut_header_stages _ _ _ _ _ Hb), Ha.
    by apply check_header_nonempty.
Qed.

Lemma cut_header_cut_after_witness :
  cut_header (txt "chr1  AC:CM000663.2") (Some (txt "")) None (Some (txt " "))
  = Ok (txt "chr1").
Proof.
  refine (proj2 (proj1 (cut_header_cut_after (txt "chr1  AC:CM000663.2")
            (Some (txt "")) None (txt " ") (txt "chr1  AC:CM000663.2") _ _)
            (txt "chr1") " "%char (txt " AC:CM000663.2") _ _ _) _).
  - discriminate.
  - reflexivity.
  - reflexivity.
  - vm_compute. apply list_elem_of_here.
  - apply Forall_forall. intros x Hx Hc.
    apply list_elem_of_singleton in Hc as ->. revert Hx. vm_compute.
    intros Hx. repeat (apply elem_of_cons in Hx as [Hx|Hx]; [discriminate|]).
    by apply elem_of_nil in Hx.
  - discriminate.
Defined.

(** C5, as the code has it: with falsy [cutBefore] and [cutAfter] ([None] or
    the empty string) and any occurrence index, every non-empty header is
    returned unchanged. *)
Theorem cut_header_no_parameters (h : str) (cb : option str) (occ : option Z)
    (ca : option str) :
  h ≠ [] →
  Py.truthy cb = false →
  Py.truthy ca = false →
  cut_header h cb occ ca = Ok h.
Proof.
  intros Hne Hcb Hca.
  rewrite (cut_header_stages h h cb occ ca)
    by (by apply cut_before_stage_falsy).
  rewrite cut_after_stage_falsy by exact Hca. by apply check_header_nonempty.
Qed.

Lemma cut_header_no_parameters_witness :
  cut_header (txt "chr1") (Some (txt "")) None (Some (txt "")) = Ok (txt "chr1").
Proof.
  apply (cut_header_no_parameters (txt "chr1") (Some (txt "")) None
           (Some (txt ""))).
  - discriminate.
  - reflexivity.
  - reflexivity.
Defined.

(** C5, as stated, fails for the empty header: the emptiness check of line 83
    rejects it although nothing was cut. *)
Lemma cut_header_no_parameters_empty_header :
  cut_header (txt "") (Some (txt "")) None (Some (txt "")) ≠ Ok (txt "").
Proof. vm_compute. discriminate. Qed.

(** C8: a non-empty header with no character of [cutBefore] and none of
    [cutAfter] is returned unchanged, whatever the occurrence index; hence a
    header that [cut_header] has returned and that has no matching character
    left is returned again by a second call with the same parameters. *)
Theorem cut_header_no_match_unchanged (h : str) (cb : option str)
    (occ : option Z) (ca : option str) :
  Forall (λ x, x ∉ Py.chars cb) h →
  Forall (λ x, x ∉ Py.chars ca) h →
  (h ≠ [] → cut_header h cb occ ca = Ok h) ∧
  (∀ h0, cut_header h0 cb occ ca = Ok h → cut_header h cb occ ca = Ok h).
Proof.
  intros Hcb Hca.
  assert (h ≠ [] → cut_header h cb occ ca = Ok h) as Hfix.
  { intros Hne.
    rewrite (cut_header_stages h h cb occ ca)
      by (by apply cut_before_stage_no_match).
    rewrite cut_after_stage_no_match by exact Hca.
    by apply check_header_nonempty. }
  split; [exact Hfix|]. intros h0 H0. apply Hfix.
  unfold cut_header in H0.
  destruct (cut_before_stage h0 cb occ) as [h1|e]; [|discriminate].
  simpl in H0. apply check_header_Ok in H0 as [E Hne]. by rewrite E.
Qed.

Lemma cut_header_no_match_unchanged_witness :
  cut_header (txt "chr1") (Some (txt "z")) None (Some (txt "")) = Ok (txt "chr1").
Proof.
  refine (proj1 (cut_header_no_match_unchanged (txt "chr1") (Some (txt "z"))
                   None (Some (txt "")) _ _) _).
  - apply Forall_forall. intros x Hx Hc.
    apply list_elem_of_singleton in Hc as ->. revert Hx. vm_compute.
    intros Hx. repeat (apply elem_of_cons in Hx as [Hx|Hx]; [discriminate|]).
    by apply elem_of_nil in Hx.
  - apply Forall_forall. intros x _ Hc. by apply elem_of_nil in Hc.
  - discriminate.
Defined.

(** * Properties of the header tables *)

(** ** Splitting and stripping *)

Lemma split_first_field (s : str) :
  ∃ fields, split TAB s = first_field s :: fields.
Proof.
  induction s as [|c s [fields IH]]; [by exists []|].
  simpl. destruct (decide (c = TAB)); [by eexists|].
  rewrite IH. by eexists.
Qed.

Lemma first_field_app_tab (f rest : str) :
  TAB ∉ f → first_field (f ++ TAB :: rest) = f.
Proof.
  induction f as [|c f IH]; intros Hf; [reflexivity|].
  apply not_elem_of_cons in Hf as [Hc Hf]. simpl.
  rewrite decide_False by congruence. by rewrite IH.
Qed.

Lemma first_field_no_tab (f : str) : TAB ∉ f → first_field f = f.
Proof.
  induction f as [|c f IH]; intros Hf; [reflexivity|]. simpl.
  apply not_elem_of_cons in Hf as [Hc Hf].
  rewrite decide_False by congruence. by rewrite IH.
Qed.

Lemma first_field_app (d rest : str) :
  first_field (d ++ TAB :: rest) = first_field d.
Proof.
  induction d as [|c d IH]; [reflexivity|]. simpl.
  destruct (decide (c = TAB)); [reflexivity | by rewrite IH].
Qed.

Lemma rstrip_nonempty_app (s t : str) :
  rstrip t ≠ [] → rstrip (s ++ t) = s ++ rstrip t.
Proof.
  intros Ht. induction s as [|c s IH]; [reflexivity|].
  simpl. rewrite IH. destruct (s ++ rstrip t) eqn:E; [|reflexivity].
  apply app_eq_nil in E as [_ E]. contradiction.
Qed.

Lemma rstrip_snoc_nonspace (s : str) (x : ascii) :
  is_space x = false → rstrip (s ++ [x]) = s ++ [x].
Proof.
  intros Hx. rewrite rstrip_nonempty_app; simpl; rewrite Hx; done.
Qed.

Lemma rstrip_snoc_space (s : str) (x : ascii) :
  is_space x = true → rstrip (s ++ [x]) = rstrip s.
Proof.
  intros Hx. induction s as [|c s IH]; simpl; [by rewrite Hx|].
  by rewrite IH.
Qed.

(** The compared value of a row that has a first field [f], a tab, and
    something other than white space after it. *)
Lemma row_key_first_field (f rest : str) :
  TAB ∉ f → rstrip rest ≠ [] → row_key (f ++ TAB :: rest) = f.
Proof.
  intros Hf Hrest. unfold row_key.
  rewrite (rstrip_nonempty_app f (TAB :: rest)).
  - simpl. destruct (rstrip rest) eqn:E; [done|]. by apply first_field_app_tab.
  - simpl. by destruct (rstrip rest).
Qed.

(** ** The uniqueness loop *)

Lemma check_unique_cons (line : str) (lines : list str) (S : gset str) :
  check_unique (line :: lines) S =
  if decide (row_key line ∈ S)
  then Raise (RuntimeError (duplicate_header_msg (row_key line)))
  else check_unique lines ({[row_key line]} ∪ S).
Proof.
  simpl. unfold row_key.
  destruct (split_first_field (rstrip line)) as [fields ->]. reflexivity.
Qed.

(** The loop reads nothing of a line but the compared value. *)
Lemma check_unique_keys (ls ls' : list str) (S : gset str) :
  row_key <$> ls = row_key <$> ls' → check_unique ls S = check_unique ls' S.
Proof.
  revert ls' S. induction ls as [|l ls IH]; intros [|l' ls'] S E;
    try discriminate; [reflexivity|].
  injection E as E1 E2. rewrite !check_unique_cons, <- E1.
  destruct (decide (row_key l ∈ S)); [reflexivity | by apply IH].
Qed.

Lemma check_unique_NoDup (ls : list str) (S : gset str) :
  NoDup (row_key <$> ls) →
  (∀ k, k ∈ row_key <$> ls → k ∉ S) →
  check_unique ls S = Ok (list_to_set (row_key <$> ls) ∪ S).
Proof.
  revert S. induction ls as [|l ls IH]; intros S Hnd Hfresh.
  - simpl. f_equal. set_solver.
  - rewrite check_unique_cons. rewrite fmap_cons in Hnd, Hfresh.
    apply NoDup_cons in Hnd as [Hl Hnd].
    rewrite decide_False by (apply Hfresh; apply list_elem_of_here).
    rewrite IH; [f_equal; set_solver | exact Hnd |].
    intros k Hk. specialize (Hfresh k (list_elem_of_further _ _ _ Hk)).
    set_solver.
Qed.

(** The first row whose compared value was seen before stops the loop. *)
Lemma check_unique_first_repeat (pre : list str) (r : str) (post : list str)
    (S : gset str) :
  NoDup (row_key <$> pre) →
  (∀ k, k ∈ row_key <$> pre → k ∉ S) →
  row_key r ∈ S ∨ row_key r ∈ row_key <$> pre →
  check_unique (pre ++ r :: post) S
  = Raise (RuntimeError (duplicate_header_msg (row_key r))).
Proof.
  revert S. induction pre as [|l pre IH]; intros S Hnd Hfresh Hr.
  - simpl app. rewrite check_unique_cons.
    destruct Hr as [Hr|Hr]; [by rewrite decide_True|].
    by apply elem_of_nil in Hr.
  - rewrite <- app_comm_cons, check_unique_cons.
    rewrite fmap_cons in Hnd, Hfresh, Hr.
    apply NoDup_cons in Hnd as [Hl Hnd].
    rewrite decide_False by (apply Hfresh; apply list_elem_of_here).
    apply IH; [exact Hnd | |].
    + intros k Hk. specialize (Hfresh k (list_elem_of_further _ _ _ Hk)).
      set_solver.
    + destruct Hr as [Hr|Hr]; [left; set_solver|].
      apply elem_of_cons in Hr as [->|Hr]; [left; set_solver | by right].
Qed.

(** A list with a repeated element splits at the first repetition. *)
Lemma first_repeat_split {A} `{EqDecision A} (l : list A) :
  ¬ NoDup l → ∃ pre x post, l = pre ++ x :: post ∧ NoDup pre ∧ x ∈ pre.
Proof.
  induction l as [|a l IH] using rev_ind; intros Hnd.
  - destruct Hnd. constructor.
  - destruct (decide (NoDup l)) as [Hl|Hl].
    + exists l, a, []. repeat split; [exact Hl|].
      destruct (decide (a ∈ l)) as [Hin|Hout]; [exact Hin|].
      destruct Hnd. apply NoDup_app. repeat split; [exact Hl | | apply NoDup_singleton].
      intros x Hx ->%list_elem_of_singleton. contradiction.
    + destruct (IH Hl) as (pre & x & post & -> & Hpre & Hx).
      exists pre, x, (post ++ [a]). by rewrite <- app_assoc.
Qed.

Lemma check_unique_repeat (ls : list str) :
  ¬ NoDup (row_key <$> ls) →
  ∃ h, check_unique ls ∅ = Raise (RuntimeError (duplicate_header_msg h)).
Proof.
  intros (kpre & k & kpost & E & Hnd & Hk)%first_repeat_split.
  apply fmap_app_inv in E as (pre & rest & -> & Hrest & ->).
  symmetry in Hrest. apply fmap_cons_inv in Hrest as (r & post & -> & -> & ->).
  exists (row_key r). apply check_unique_first_repeat; [exact Hnd | | by right].
  intros ? _. set_solver.
Qed.

Lemma check_unique_Ok (ls : list str) (S S' : gset str) :
  check_unique ls S = Ok S' →
  NoDup (row_key <$> ls) ∧ ∀ k, k ∈ row_key <$> ls → k ∉ S.
Proof.
  revert S. induction ls as [|l ls IH]; intros S H.
  - split; [constructor|]. intros k Hk. by apply elem_of_nil in Hk.
  - rewrite check_unique_cons in H.
    destruct (decide (row_key l ∈ S)) as [|Hl]; [discriminate|].
    apply IH in H as [Hnd Hfresh]. rewrite fmap_cons. split.
    + apply NoDup_cons. split; [|exact Hnd].
      intros Hin. apply Hfresh in Hin. set_solver.
    + intros k [->|Hk]%elem_of_cons; [exact Hl|].
      apply Hfresh in Hk. set_solver.
Qed.

(** ** Reading a table line by line *)

Lemma universal_newlines_cons (c : ascii) (s : str) :
  c ≠ CR → universal_newlines (c :: s) = c :: universal_newlines s.
Proof. intros Hc. simpl. by rewrite decide_False. Qed.

Lemma universal_newlines_CR_LF (s : str) :
  universal_newlines (CR :: LF :: s) = LF :: universal_newlines s.
Proof. reflexivity. Qed.

Lemma universal_newlines_CR_cons (c : ascii) (s : str) :
  c ≠ LF →
  universal_newlines (CR :: c :: s) = LF :: universal_newlines (c :: s).
Proof.
  intros Hc. change (universal_newlines (CR :: c :: s))
    with (if decide (c = LF) then LF :: universal_newlines s
          else LF :: universal_newlines (c :: s)).
  by rewrite decide_False.
Qed.

(** Induction along the cases of [universal_newlines]. *)
Lemma universal_newlines_ind (P : str → Prop) :
  P [] →
  (∀ c s, c ≠ CR → P s → P (c :: s)) →
  P [CR] →
  (∀ s, P s → P (CR :: LF :: s)) →
  (∀ c s, c ≠ LF → P (c :: s) → P (CR :: c :: s)) →
  ∀ s, P s.
Proof.
  intros Hnil Hcons Hcr Hcrlf Hcrc s.
  induction s as [s IH] using (induction_ltof1 _ (@length ascii)).
  unfold ltof in IH.
  destruct s as [|c s]; [exact Hnil|].
  destruct (decide (c = CR)) as [->|Hc].
  - destruct s as [|c' s]; [exact Hcr|].
    destruct (decide (c' = LF)) as [->|Hc'].
    + apply Hcrlf, IH. simpl. lia.
    + apply Hcrc; [exact Hc'|]. apply IH. simpl. lia.
  - apply Hcons; [exact Hc|]. apply IH. simpl. lia.
Qed.

Lemma universal_newlines_no_CR (s : str) :
  CR ∉ s → universal_newlines s = s.
Proof.
  induction s as [|c s IH]; intros Hs; [reflexivity|].
  apply not_elem_of_cons in Hs as [Hc Hs].
  rewrite universal_newlines_cons by congruence. by rewrite IH.
Qed.

Lemma universal_newlines_line (body rest : str) :
  CR ∉ body →
  universal_newlines (body ++ LF :: rest) = body ++ LF :: universal_newlines rest.
Proof.
  induction body as [|c body IH]; intros Hs.
  - simpl app. by rewrite universal_newlines_cons.
  - apply not_elem_of_cons in Hs as [Hc Hs]. rewrite <- !app_comm_cons.
    rewrite universal_newlines_cons by congruence. by rewrite IH.
Qed.

Lemma universal_newlines_terminated (s t : str) :
  universal_newlines (s ++ LF :: t)
  = universal_newlines (s ++ [LF]) ++ universal_newlines t.
Proof.
  induction s as [|c s Hc IH| |s IH|c s Hc IH] using universal_newlines_ind.
  - simpl app. by rewrite !universal_newlines_cons.
  - rewrite <- !app_comm_cons, !universal_newlines_cons by exact Hc.
    by rewrite IH.
  - reflexivity.
  - rewrite <- !app_comm_cons, !universal_newlines_CR_LF. by rewrite IH.
  - rewrite <- !app_comm_cons in *.
    rewrite !universal_newlines_CR_cons by exact Hc. by rewrite IH.
Qed.

Lemma universal_newlines_snoc_LF (s : str) :
  ∃ w, universal_newlines (s ++ [LF]) = w ++ [LF].
Proof.
  induction s as [|c s Hc [w IH]| |s [w IH]|c s Hc [w IH]]
    using universal_newlines_ind.
  - by exists [].
  - exists (c :: w). rewrite <- app_comm_cons, universal_newlines_cons by exact Hc.
    by rewrite IH.
  - by exists [].
  - exists (LF :: w). rewrite <- !app_comm_cons, universal_newlines_CR_LF.
    by rewrite IH.
  - exists (LF :: w). rewrite <- !app_comm_cons in *.
    rewrite universal_newlines_CR_cons by exact Hc. by rewrite IH.
Qed.

Lemma file_lines_nil_inv (s : str) : file_lines s = [] → s = [].
Proof.
  destruct s as [|c s]; [reflexivity|]. simpl.
  destruct (decide (c = LF)); [discriminate|].
  by destruct (file_lines s).
Qed.

Lemma file_lines_terminated (s t : str) :
  file_lines (s ++ LF :: t) = file_lines (s ++ [LF]) ++ file_lines t.
Proof.
  induction s as [|c s IH]; [reflexivity|].
  rewrite <- !app_comm_cons. simpl. rewrite IH.
  destruct (decide (c = LF)); [reflexivity|].
  destruct (file_lines (s ++ [LF])) as [|line lines] eqn:E; [|reflexivity].
  apply file_lines_nil_inv in E. by destruct s.
Qed.

Lemma file_lines_line (body rest : str) :
  LF ∉ body →
  file_lines (body ++ LF :: rest) = (body ++ [LF]) :: file_lines rest.
Proof.
  induction body as [|c body IH]; intros Hs; [reflexivity|].
  apply not_elem_of_cons in Hs as [Hc Hs]. rewrite <- !app_comm_cons.
  simpl. rewrite decide_False by congruence. by rewrite IH.
Qed.

(** The lines of two tables, the first of which ends with a line feed, are
    the lines of the first followed by the lines of the second. *)
Lemma table_rows_app_terminated (s t : str) :
  table_rows ((s ++ [LF]) ++ t) = table_rows (s ++ [LF]) ++ table_rows t.
Proof.
  unfold table_rows. rewrite <- app_assoc. simpl app.
  rewrite universal_newlines_terminated.
  destruct (universal_newlines_snoc_LF s) as [w ->].
  rewrite <- app_assoc. simpl app. rewrite file_lines_terminated.
  reflexivity.
Qed.

Lemma table_rows_line (body rest : str) :
  single_line body →
  table_rows ((body ++ [LF]) ++ rest) = (body ++ [LF]) :: table_rows rest.
Proof.
  intros [Hlf Hcr]. unfold table_rows. rewrite <- app_assoc. simpl app.
  rewrite universal_newlines_line by exact Hcr.
  by rewrite file_lines_line.
Qed.

(** A table made of single-line rows is read back row by row. *)
Lemma table_rows_concat (bodies : list str) (rest : str) :
  Forall single_line bodies →
  table_rows (concat ((λ b, b ++ [LF]) <$> bodies) ++ rest)
  = ((λ b, b ++ [LF]) <$> bodies) ++ table_rows rest.
Proof.
  induction 1 as [|b bodies Hb _ IH]; [reflexivity|].
  rewrite fmap_cons. simpl concat. rewrite <- app_assoc.
  rewrite table_rows_line by exact Hb. by rewrite IH.
Qed.

(** ** The rows written by [make_one_header_table] *)

Lemma digit_chars (c : ascii) :
  digit c → is_space c = false ∧ c ≠ LF ∧ c ≠ CR ∧ c ≠ TAB.
Proof.
  unfold digit. vm_compute txt. intros H.
  repeat (apply elem_of_cons in H as [->|H]; [by repeat split|]).
  by apply elem_of_nil in H.
Qed.

Lemma digit_intro (c : ascii) (s : str) :
  c ∈ txt "0123456789" → Forall digit s → Forall digit (c :: s).
Proof. intros Hc Hs. by constructor. Qed.

Lemma string_of_uint_digits (d : uint) :
  Forall digit (txt (NilEmpty.string_of_uint d)).
Proof.
  induction d; simpl; [constructor|..];
    (apply digit_intro; [vm_compute txt; set_solver | assumption]).
Qed.

Lemma str_of_nat_digits (n : nat) : Forall digit (str_of_nat n).
Proof.
  unfold str_of_nat, NilZero.string_of_uint.
  destruct (Nat.to_uint n) eqn:E; try (rewrite <- E; apply string_of_uint_digits).
  apply digit_intro; [vm_compute txt; set_solver | constructor].
Qed.

Lemma str_of_nat_nonempty (n : nat) : str_of_nat n ≠ [].
Proof.
  unfold str_of_nat, NilZero.string_of_uint.
  destruct (Nat.to_uint n); discriminate.
Qed.

Lemma format_row_body (d h ev : str) (n : nat) :
  format_row d h ev n = row_body d h ev n ++ [LF].
Proof.
  unfold format_row, row_body.
  repeat (rewrite <- ?app_assoc, <- ?app_comm_cons). reflexivity.
Qed.

Lemma row_body_single_line (d h ev : str) (n : nat) :
  single_line d → single_line h → single_line ev →
  single_line (row_body d h ev n).
Proof.
  intros [Hd1 Hd2] [Hh1 Hh2] [He1 He2].
  assert ((LF ∉ str_of_nat n) ∧ (CR ∉ str_of_nat n)) as [Hn1 Hn2].
  { pose proof (str_of_nat_digits n) as Hn. rewrite Forall_forall in Hn.
    split; intros Hin; apply Hn, digit_chars in Hin; naive_solver. }
  unfold single_line, row_body.
  rewrite !elem_of_app, !elem_of_cons, !elem_of_app, !elem_of_cons,
    !elem_of_app, !elem_of_cons.
  split; intros H; decompose [or] H; try contradiction; discriminate.
Qed.

Lemma rstrip_row_body (d h ev : str) (n : nat) :
  rstrip (row_body d h ev n ++ [LF]) = row_body d h ev n.
Proof.
  rewrite rstrip_snoc_space by reflexivity.
  destruct (str_of_nat n) as [|x ds] eqn:E using rev_ind;
    [by apply str_of_nat_nonempty in E|]. clear IHds.
  assert (is_space x = false) as Hx.
  { pose proof (str_of_nat_digits n) as Hn. rewrite E in Hn.
    apply Forall_app in Hn as [_ Hn]. apply Forall_cons in Hn as [Hn _].
    by apply digit_chars in Hn as [Hn _]. }
  unfold row_body. rewrite E.
  replace (d ++ TAB :: h ++ TAB :: ev ++ TAB :: ds ++ [x])
    with ((d ++ TAB :: h ++ TAB :: ev ++ TAB :: ds) ++ [x]).
  - by apply rstrip_snoc_nonspace.
  - repeat (rewrite <- ?app_assoc, <- ?app_comm_cons). reflexivity.
Qed.

(** The join step reads back, as the compared value of a written row, the
    first tab-separated field of the original header. *)
Lemma row_key_format_row (d h ev : str) (n : nat) :
  row_key (format_row d h ev n) = first_field d.
Proof.
  unfold row_key. rewrite format_row_body, rstrip_row_body.
  unfold row_body. apply first_field_app.
Qed.

Lemma original_header_column_no_tab (r : SeqRecord) :
  TAB ∉ description r → original_header_column r = description r.
Proof. apply first_field_no_tab. Qed.

(** ** What [cut_header] returns is made of characters of the header *)

Lemma cut_before_stage_subseteq (h h1 : str) (cb : option str)
    (occ : option Z) :
  cut_before_stage h cb occ = Ok h1 → h1 ⊆ h.
Proof.
  unfold cut_before_stage. destruct (Py.truthy cb); [|by intros [= ->]].
  destruct (_ <$> _) as [|z zs]; [by intros [= ->]|].
  destruct (if negb _ then _ else _) as [pos|e]; [simpl|discriminate].
  destruct (0 <=? pos)%Z; [|by intros [= ->]].
  destruct (pos <? _)%Z; intros [= <-].
  - apply subseteq_drop.
  - apply list_subseteq_nil.
Qed.

Lemma cut_after_stage_subseteq (h : str) (ca : option str) :
  cut_after_stage h ca ⊆ h.
Proof.
  unfold cut_after_stage. destruct (Py.truthy ca); [|done].
  destruct (_ <$> _) as [|p ps]; [done|]. apply subseteq_take.
Qed.

Lemma cut_header_subseteq (h h' : str) (cb : option str) (occ : option Z)
    (ca : option str) :
  cut_header h cb occ ca = Ok h' → h' ⊆ h.
Proof.
  unfold cut_header. intros H.
  destruct (cut_before_stage h cb occ) as [h1|e] eqn:Hb; [|discriminate].
  simpl in H. apply check_header_Ok in H as [-> _].
  apply cut_before_stage_subseteq in Hb.
  pose proof (cut_after_stage_subseteq h1 ca). set_solver.
Qed.

Lemma single_line_subseteq (s s' : str) :
  s' ⊆ s → single_line s → single_line s'.
Proof. intros Hs [H1 H2]. split; intros Hin; apply Hs in Hin; done. Qed.

Lemma header_row_uncut
    (cutter : str → option str → option Z → option str → result str)
    (ev : str) (cb : option str) (occ : option Z) (ca : option str)
    (r : SeqRecord) :
  Py.truthy cb = false → Py.truthy ca = false →
  header_row cutter ev cb occ ca r = Ok (uncut_row ev r).
Proof. intros Hcb Hca. unfold header_row. by rewrite Hcb, Hca. Qed.

Lemma write_rows_uncut
    (cutter : str → option str → option Z → option str → result str)
    (ev : str) (cb : option str) (occ : option Z) (ca : option str)
    (fa : list SeqRecord) (acc : str) :
  Py.truthy cb = false → Py.truthy ca = false →
  write_rows cutter ev cb occ ca fa acc
  = Ok (acc ++ concat (uncut_row ev <$> fa)).
Proof.
  intros Hcb Hca. revert acc. induction fa as [|r fa IH]; intros acc.
  - simpl. by rewrite app_nil_r.
  - simpl write_rows. rewrite header_row_uncut by assumption.
    rewrite bind_Ok, IH, fmap_cons. simpl concat. by rewrite app_assoc.
Qed.

Lemma header_row_cut_header (ev : str) (cb : option str) (occ : option Z)
    (ca : option str) (r : SeqRecord) (row : str) :
  header_row cut_header ev cb occ ca r = Ok row →
  ∃ h, h ⊆ description r ∧
       row = format_row (description r) h ev (length (seq r)).
Proof.
  unfold header_row. destruct (Py.truthy cb || Py.truthy ca).
  - destruct (cut_header _ _ _ _) as [h|e] eqn:E; [|discriminate].
    intros [= <-]. exists h. split; [by eapply cut_header_subseteq | done].
  - intros [= <-]. by exists (description r).
Qed.

Lemma write_rows_bodies (ev : str) (cb : option str) (occ : option Z)
    (ca : option str) (fa : list SeqRecord) (acc t : str) :
  single_line ev →
  Forall (λ r, single_line (description r)) fa →
  write_rows cut_header ev cb occ ca fa acc = Ok t →
  ∃ bodies,
    t = acc ++ concat ((λ b, b ++ [LF]) <$> bodies) ∧
    Forall single_line bodies ∧
    (λ b, row_key (b ++ [LF])) <$> bodies = original_header_column <$> fa.
Proof.
  intros Hev Hfa. revert acc.
  induction Hfa as [|r fa Hr _ IH]; intros acc H.
  - injection H as <-. exists []. by rewrite app_nil_r.
  - simpl in H.
    destruct (header_row cut_header ev cb occ ca r) as [row|e] eqn:E;
      [|discriminate].
    rewrite bind_Ok in H. apply IH in H as (bodies & -> & Hb & Hk).
    apply header_row_cut_header in E as (h & Hh & ->).
    exists (row_body (description r) h ev (length (seq r)) :: bodies).
    rewrite !fmap_cons. simpl concat. rewrite <- format_row_body.
    split; [by rewrite <- !app_assoc|]. split.
    + constructor; [|exact Hb]. apply row_body_single_line; try done.
      by eapply single_line_subseteq.
    + by rewrite row_key_format_row, Hk.
Qed.

Lemma header_tables_bodies (samples : list (list SeqRecord * str))
    (cb : option str) (occ : option Z) (ca : option str) (tables : list str) :
  Forall single_line_sample samples →
  header_tables samples cb occ ca = Ok tables →
  ∃ bodies,
    catFiles tables = concat ((λ b, b ++ [LF]) <$> bodies) ∧
    Forall single_line bodies ∧
    (λ b, row_key (b ++ [LF])) <$> bodies
    = original_header_column <$> all_records samples.
Proof.
  intros Hs. revert tables.
  induction Hs as [|[fa ev] samples [Hev Hfa] _ IH]; intros tables H.
  - injection H as <-. by exists [].
  - simpl in H.
    destruct (make_one_header_table fa ev cb occ ca) as [t|e] eqn:E;
      [|discriminate].
    rewrite bind_Ok in H.
    destruct (header_tables samples cb occ ca) as [ts|e]; [|discriminate].
    injection H as <-.
    destruct (IH ts eq_refl) as (bs & Hcat & Hbs & Hks).
    apply write_rows_bodies in E as (b1 & -> & Hb1 & Hk1); [|done..].
    exists (b1 ++ bs). unfold catFiles in *. simpl concat.
    rewrite Hcat, !fmap_app, concat_app. split; [done|]. split.
    + by apply Forall_app.
    + unfold all_records. rewrite fmap_cons. simpl concat.
      rewrite fmap_app. unfold all_records in Hks. by rewrite Hk1, Hks.
Qed.

(** Every table written by the loop ends with a line feed, or is empty. *)
Lemma write_rows_terminated
    (cutter : str → option str → option Z → option str → result str)
    (ev : str) (cb : option str) (occ : option Z) (ca : option str)
    (fa : list SeqRecord) (acc t : str) :
  terminated acc →
  write_rows cutter ev cb occ ca fa acc = Ok t → terminated t.
Proof.
  revert acc. induction fa as [|r fa IH]; intros acc Hacc H.
  - by injection H as <-.
  - simpl in H.
    destruct (header_row cutter ev cb occ ca r) as [row|e] eqn:E;
      [|discriminate].
    rewrite bind_Ok in H. apply IH in H; [exact H|].
    unfold header_row in E.
    destruct (if _ : bool then _ else _) as [h|e]; [|discriminate].
    injection E as <-. right. rewrite format_row_body, app_assoc. by eexists.
Qed.

Lemma make_one_header_table_terminated (fa : list SeqRecord) (ev : str)
    (cb : option str) (occ : option Z) (ca : option str) (t : str) :
  make_one_header_table fa ev cb occ ca = Ok t → terminated t.
Proof. apply write_rows_terminated. by left. Qed.

Lemma length_all_records (samples : list (list SeqRecord * str)) :
  length (all_records samples)
  = sum_list ((λ sample, length (sample.1)) <$> samples).
Proof.
  unfold all_records. induction samples as [|[fa ev] samples IH];
    [reflexivity|].
  rewrite !fmap_cons. simpl concat. rewrite length_app, IH. reflexivity.
Qed.

(** ** The join step *)

Lemma table_rows_catFiles (tables : list str) :
  Forall terminated tables →
  table_rows (catFiles tables) = concat (table_rows <$> tables).
Proof.
  unfold catFiles. induction 1 as [|t tables Ht _ IH]; [reflexivity|].
  rewrite fmap_cons. simpl concat. destruct Ht as [->|[s ->]].
  - exact IH.
  - by rewrite table_rows_app_terminated, IH.
Qed.

Lemma join_header_table_NoDup (tables : list str) :
  NoDup (row_key <$> table_rows (catFiles tables)) →
  join_header_table tables = Ok (catFiles tables).
Proof.
  intros Hnd. unfold join_header_table, table_rows in *.
  rewrite check_unique_NoDup; [reflexivity | exact Hnd |].
  intros ? _. set_solver.
Qed.

Lemma join_header_table_first_repeat (tables : list str) (pre : list str)
    (r : str) (post : list str) :
  table_rows (catFiles tables) = pre ++ r :: post →
  NoDup (row_key <$> pre) →
  row_key r ∈ row_key <$> pre →
  join_header_table tables
  = Raise (RuntimeError (duplicate_header_msg (row_key r))).
Proof.
  intros E Hnd Hr. unfold join_header_table, table_rows in *.
  rewrite E, check_unique_first_repeat; [reflexivity | exact Hnd | | by right].
  intros ? _. set_solver.
Qed.

Lemma join_header_table_repeat (tables : list str) :
  ¬ NoDup (row_key <$> table_rows (catFiles tables)) →
  ∃ h, join_header_table tables = Raise (RuntimeError (duplicate_header_msg h)).
Proof.
  intros [h Hh]%check_unique_repeat. exists h.
  unfold join_header_table, table_rows in *. by rewrite Hh.
Qed.

Lemma join_header_table_Ok (tables : list str) (T : str) :
  join_header_table tables = Ok T →
  T = catFiles tables ∧ NoDup (row_key <$> table_rows (catFiles tables)).
Proof.
  unfold join_header_table, table_rows.
  destruct (check_unique _ ∅) as [S|e] eqn:E; [|discriminate].
  intros [= <-]. split; [reflexivity|]. by apply check_unique_Ok in E as [? _].
Qed.

(** Two rows with one compared value, anywhere in a list of rows. *)
Lemma repeated_key_not_NoDup (pre : list str) (l1 : str) (mid : list str)
    (l2 : str) (post : list str) :
  row_key l1 = row_key l2 →
  ¬ NoDup (row_key <$> pre ++ l1 :: mid ++ l2 :: post).
Proof.
  intros E Hnd. rewrite fmap_app, fmap_cons, fmap_app, fmap_cons in Hnd.
  apply NoDup_app in Hnd as (_ & _ & Hnd).
  apply NoDup_cons in Hnd as [Hl1 _]. apply Hl1.
  rewrite E. apply elem_of_app. right. apply list_elem_of_here.
Qed.

Lemma rows_of_two_tables (A : list str) (t1 : str) (B : list str) (t2 : str)
    (C : list str) (l1 l2 : str) :
  l1 ∈ table_rows t1 → l2 ∈ table_rows t2 →
  ∃ pre mid post,
    concat (table_rows <$> A ++ t1 :: B ++ t2 :: C)
    = pre ++ l1 :: mid ++ l2 :: post.
Proof.
  intros (p1 & q1 & E1)%list_elem_of_split (p2 & q2 & E2)%list_elem_of_split.
  exists (concat (table_rows <$> A) ++ p1),
         (q1 ++ concat (table_rows <$> B) ++ p2),
         (q2 ++ concat (table_rows <$> C)).
  rewrite fmap_app, fmap_cons, fmap_app, fmap_cons.
  rewrite concat_app. simpl concat. rewrite concat_app. simpl concat.
  rewrite E1, E2.
  repeat (rewrite <- ?app_assoc, <- ?app_comm_cons). reflexivity.
Qed.

(** ** The claims about the header tables *)

(** The text of the duplicate-header error: the header stands in it, between
    the two fixed parts of the message of line 145. *)
Lemma duplicate_header_msg_text (h : str) :
  duplicate_header_msg h
  = txt "Error: fasta header " ++ h ++
    txt " found in more than one sample.  Headers must be unique to make table".
Proof. reflexivity. Qed.

(** A table with a repeated first column stops the join step at the first
    row that repeats one. *)
Lemma join_header_table_repeat_row (tables : list str) :
  ¬ NoDup (row_key <$> table_rows (catFiles tables)) →
  ∃ pre r post,
    table_rows (catFiles tables) = pre ++ r :: post ∧
    NoDup (row_key <$> pre) ∧
    row_key r ∈ row_key <$> pre ∧
    join_header_table tables
    = Raise (RuntimeError (duplicate_header_msg (row_key r))).
Proof.
  intros (kpre & k & kpost & E & Hnd & Hk)%first_repeat_split.
  apply fmap_app_inv in E as (pre & rest & -> & Hrest & E).
  symmetry in Hrest. apply fmap_cons_inv in Hrest as (r & post & -> & -> & ->).
  exists pre, r, post. repeat split; [exact E | exact Hnd | exact Hk|].
  by apply (join_header_table_first_repeat tables pre r post).
Qed.

(** C6: the join step reads the concatenated table line by line, the
    [original_header] of a line being its first column ([row_key]).  At the
    first line whose value appeared in an earlier line it fails with the
    duplicate-header [RuntimeError], whose message is the text of line 145
    with that value in it; two tables of the list (each written row by row,
    hence ending with a line feed) that hold a row with the same value make
    it fail in this way, the message naming a value that a row repeats; and
    when no value repeats it returns the concatenated table. *)
Theorem join_header_table_duplicate_check (header_tables : list str) :
  (∀ pre r post,
     table_rows (catFiles header_tables) = pre ++ r :: post →
     NoDup (row_key <$> pre) →
     row_key r ∈ row_key <$> pre →
     join_header_table header_tables
     = Raise (RuntimeError
         (txt "Error: fasta header " ++ row_key r ++
          txt " found in more than one sample.  Headers must be unique to make table"))) ∧
  (∀ A t1 B t2 C l1 l2,
     header_tables = A ++ t1 :: B ++ t2 :: C →
     Forall terminated header_tables →
     l1 ∈ table_rows t1 → l2 ∈ table_rows t2 → row_key l1 = row_key l2 →
     ∃ pre r post,
       table_rows (catFiles header_tables) = pre ++ r :: post ∧
       row_key r ∈ row_key <$> pre ∧
       join_header_table header_tables
       = Raise (RuntimeError
           (txt "Error: fasta header " ++ row_key r ++
            txt " found in more than one sample.  Headers must be unique to make table"))) ∧
  (NoDup (row_key <$> table_rows (catFiles header_tables)) →
   join_header_table header_tables = Ok (catFiles header_tables)).
Proof.
  split; [|split].
  - intros pre r post Hrows Hnd Hr. rewrite <- duplicate_header_msg_text.
    by apply (join_header_table_first_repeat header_tables pre r post).
  - intros A t1 B t2 C l1 l2 -> Hterm Hl1 Hl2 E.
    destruct (join_header_table_repeat_row (A ++ t1 :: B ++ t2 :: C))
      as (pre & r & post & Hrows & _ & Hr & Hj).
    { rewrite table_rows_catFiles by exact Hterm.
      destruct (rows_of_two_tables A t1 B t2 C l1 l2 Hl1 Hl2)
        as (pre & mid & post & ->).
      by apply repeated_key_not_NoDup. }
    exists pre, r, post. rewrite <- duplicate_header_msg_text. by repeat split.
  - apply join_header_table_NoDup.
Qed.

Lemma join_header_table_duplicate_check_witness :
  join_header_table
    [format_row (txt "chr1") (txt "chr1") (txt "A") 4;
     format_row (txt "chr1") (txt "chr1") (txt "B") 8]
  = Raise (RuntimeError
      (txt "Error: fasta header chr1 found in more than one sample.  Headers must be unique to make table")).
Proof.
  refine (eq_trans (proj1 (join_header_table_duplicate_check
                  [format_row (txt "chr1") (txt "chr1") (txt "A") 4;
                   format_row (txt "chr1") (txt "chr1") (txt "B") 8])
           [format_row (txt "chr1") (txt "chr1") (txt "A") 4]
           (format_row (txt "chr1") (txt "chr1") (txt "B") 8) [] _ _ _) _).
  - vm_compute. reflexivity.
  - vm_compute. apply NoDup_singleton.
  - vm_compute. apply list_elem_of_here.
  - vm_compute. reflexivity.
Defined.

(** Two tables whose rows have different first columns are joined. *)
Example join_header_table_distinct :
  join_header_table
    [format_row (txt "chr1") (txt "chr1") (txt "A") 4;
     format_row (txt "chr2") (txt "chr2") (txt "B") 8]
  = Ok (format_row (txt "chr1") (txt "chr1") (txt "A") 4 ++
        format_row (txt "chr2") (txt "chr2") (txt "B") 8).
Proof. vm_compute. reflexivity. Qed.

(** C7: when [cut_before] and [cut_after] are absent (or empty), whatever
    the occurrence index, the table holds for every record the row whose
    [cut_header] column is the [original_header] itself, the call cannot
    fail, and the function that would cut the header plays no part in the
    result: any other function in its place gives the same table. *)
Theorem make_one_header_table_without_parameters (fa : list SeqRecord)
    (event : str) (cut_before : option str) (cut_before_occ : option Z)
    (cut_after : option str) :
  Py.truthy cut_before = false →
  Py.truthy cut_after = false →
  make_one_header_table fa event cut_before cut_before_occ cut_after
    = Ok (concat (uncut_row event <$> fa)) ∧
  ∀ cutter,
    make_one_header_table_with cutter fa event
      cut_before cut_before_occ cut_after
    = make_one_header_table fa event cut_before cut_before_occ cut_after.
Proof.
  intros Hcb Hca. unfold make_one_header_table, make_one_header_table_with.
  split; [|intros cutter]; by rewrite !write_rows_uncut.
Qed.

Lemma make_one_header_table_without_parameters_witness :
  make_one_header_table
    [mkSeqRecord (txt "") (txt "ACGT"); mkSeqRecord (txt "chr1") (txt "AC")]
    (txt "E") None None None
  = Ok (format_row (txt "") (txt "") (txt "E") 4 ++
        format_row (txt "chr1") (txt "chr1") (txt "E") 2).
Proof.
  refine (eq_trans (proj1 (make_one_header_table_without_parameters
            [mkSeqRecord (txt "") (txt "ACGT"); mkSeqRecord (txt "chr1") (txt "AC")]
            (txt "E") None None None _ _)) _).
  - reflexivity.
  - reflexivity.
  - vm_compute. reflexivity.
Defined.

(** The cutter itself rejects the empty header of the first record above. *)
Example cut_header_rejects_empty_header :
  cut_header (txt "") None None None = Raise (NameError "seq_record").
Proof. vm_compute. reflexivity. Qed.

Lemma join_header_table_Raise (tables : list str) (e : exn) :
  join_header_table tables = Raise e ↔
  check_unique (table_rows (catFiles tables)) ∅ = Raise e.
Proof.
  unfold join_header_table, table_rows.
  destruct (check_unique _ ∅) as [S|e']; simpl; split; congruence.
Qed.

(** Settles a decidable statement about concrete values by evaluation. *)
Ltac by_evaluation := apply (bool_decide_unpack _); vm_compute; exact I.

(** C9: take samples whose descriptions and event names are single lines, as
    a line-based parser gives them, and whose per-sample tables could all be
    built.  When no value of the [original_header] column is duplicated, the
    join step returns the concatenated table; and the table it returns has
    one row per input record: its number of rows is the sum of the numbers
    of records of the samples. *)
Theorem joined_table_row_count (samples : list (list SeqRecord * str))
    (cut_before : option str) (cut_before_occ : option Z)
    (cut_after : option str) (tables : list str) :
  Forall single_line_sample samples →
  header_tables samples cut_before cut_before_occ cut_after = Ok tables →
  (NoDup (original_header_column <$> all_records samples) →
   join_header_table tables = Ok (catFiles tables)) ∧
  (∀ T, join_header_table tables = Ok T →
        length (table_rows T)
        = sum_list ((λ sample, length (sample.1)) <$> samples)).
Proof.
  intros Hs Ht.
  destruct (header_tables_bodies _ _ _ _ _ Hs Ht) as (bodies & Hcat & Hb & Hk).
  assert (table_rows (catFiles tables) = (λ b, b ++ [LF]) <$> bodies) as Hrows.
  { rewrite Hcat, <- (app_nil_r (concat _)).
    rewrite table_rows_concat by exact Hb. apply app_nil_r. }
  split.
  - intros Hnd. apply join_header_table_NoDup.
    rewrite Hrows, <- list_fmap_compose. unfold compose.
    by rewrite Hk.
  - intros T [-> _]%join_header_table_Ok.
    rewrite Hrows, length_fmap, <- length_all_records.
    rewrite <- (length_fmap original_header_column), <- Hk.
    by rewrite length_fmap.
Qed.

Lemma joined_table_row_count_witness :
  ∃ T,
    make_cut_header_table
      [[mkSeqRecord (txt "A#chr1") (txt "ACGT");
        mkSeqRecord (txt "A#chr2") (txt "AC")];
       [mkSeqRecord (txt "B#chr1") (txt "")]]
      [txt "A"; txt "B"] (Some (txt "#")) None None = Ok T ∧
    length (table_rows T) = 3.
Proof.
  pose (samples :=
    [([mkSeqRecord (txt "A#chr1") (txt "ACGT");
       mkSeqRecord (txt "A#chr2") (txt "AC")], txt "A");
     ([mkSeqRecord (txt "B#chr1") (txt "")], txt "B")]).
  pose (tables :=
    [format_row (txt "A#chr1") (txt "chr1") (txt "A") 4 ++
     format_row (txt "A#chr2") (txt "chr2") (txt "A") 2;
     format_row (txt "B#chr1") (txt "chr1") (txt "B") 0]).
  assert (Forall single_line_sample samples) as Hs.
  { repeat constructor; by_evaluation. }
  assert (header_tables samples (Some (txt "#")) None None = Ok tables) as Ht
    by (vm_compute; reflexivity).
  destruct (joined_table_row_count samples (Some (txt "#")) None None tables
              Hs Ht) as [Hjoin Hcount].
  assert (join_header_table tables = Ok (catFiles tables)) as Hj
    by (apply Hjoin; by_evaluation).
  exists (catFiles tables). split.
  - unfold make_cut_header_table.
    change (zip _ _) with samples. rewrite Ht. exact Hj.
  - exact (Hcount _ Hj).
Defined.

(** C10: the value the uniqueness check compares is the first tab-separated
    field of a row and nothing else of it: two tables whose rows have the
    same first fields in the same order fail alike, whatever their other
    columns hold; and two rows of one and the same table that agree on the
    first field make the join step fail. *)
Theorem join_header_table_compares_first_field :
  (∀ f rest, TAB ∉ f → rstrip rest ≠ [] → row_key (f ++ TAB :: rest) = f) ∧
  (∀ tables tables',
     row_key <$> table_rows (catFiles tables)
     = row_key <$> table_rows (catFiles tables') →
     ∀ e, join_header_table tables = Raise e
          ↔ join_header_table tables' = Raise e) ∧
  (∀ t pre l1 mid l2 post,
     table_rows t = pre ++ l1 :: mid ++ l2 :: post →
     row_key l1 = row_key l2 →
     ∃ h, join_header_table [t]
          = Raise (RuntimeError (duplicate_header_msg h))).
Proof.
  split; [|split].
  - apply row_key_first_field.
  - intros tables tables' E e. rewrite !join_header_table_Raise.
    by rewrite (check_unique_keys _ _ ∅ E).
  - intros t pre l1 mid l2 post Hrows E.
    apply join_header_table_repeat. unfold catFiles. simpl concat.
    rewrite app_nil_r, Hrows. by apply repeated_key_not_NoDup.
Qed.

Lemma join_header_table_compares_first_field_witness :
  ∃ h,
    join_header_table
      [format_row (txt "chr1") (txt "chr1") (txt "A") 4 ++
       format_row (txt "chr1") (txt "other") (txt "A") 8]
    = Raise (RuntimeError (duplicate_header_msg h)).
Proof.
  apply (proj2 (proj2 join_header_table_compares_first_field)
           (format_row (txt "chr1") (txt "chr1") (txt "A") 4 ++
            format_row (txt "chr1") (txt "other") (txt "A") 8)
           [] (format_row (txt "chr1") (txt "chr1") (txt "A") 4)
           [] (format_row (txt "chr1") (txt "other") (txt "A") 8) []).
  - vm_compute. reflexivity.
  - vm_compute. reflexivity.
Defined.

(** ** Further evaluations *)

(** Two descriptions that differ only after a tab have the same value in the
    [original_header] column, and the join step rejects them, naming that
    value. *)
Example join_header_table_tab_in_header :
  make_cut_header_table
    [[mkSeqRecord (txt "a" ++ TAB :: txt "b") (txt "ACGT")];
     [mkSeqRecord (txt "a" ++ TAB :: txt "c") (txt "AC")]]
    [txt "A"; txt "B"] None None None
  = Raise (RuntimeError (duplicate_header_msg (txt "a"))).
Proof. vm_compute. reflexivity. Qed.

(** A negative occurrence index is used as Python uses it: counted from the
    end of the list of positions, and out of range when there are too few. *)
Example cut_header_negative_occurrence :
  cut_header (txt "a#b#c") (Some (txt "#")) (Some (-1)%Z) None = Ok (txt "b#c") ∧
  cut_header (txt "a#b") (Some (txt "#")) (Some (-1)%Z) None = Raise IndexError.
Proof. split; vm_compute; reflexivity. Qed.

(** * Further properties of [cut_header] *)

(** ** Helper facts *)

Lemma cut_before_stage_suffix (h h1 : str) (cb : option str) (occ : option Z) :
  cut_before_stage h cb occ = Ok h1 → h1 `suffix_of` h.
Proof.
  unfold cut_before_stage. destruct (Py.truthy cb); [|by intros [= ->]].
  destruct (_ <$> _) as [|z zs]; [by intros [= ->]|].
  destruct (if negb _ then _ else _) as [pos|e]; [simpl|discriminate].
  destruct (0 <=? pos)%Z; [|by intros [= ->]].
  destruct (pos <? _)%Z; intros [= <-].
  - apply suffix_drop.
  - apply suffix_nil.
Qed.

Lemma cut_after_stage_prefix (h : str) (ca : option str) :
  cut_after_stage h ca `prefix_of` h.
Proof.
  unfold cut_after_stage. destruct (Py.truthy ca); [|done].
  destruct (_ <$> _) as [|p ps]; [done|]. apply prefix_take.
Qed.

(** A header that contains a matching character splits at the first one. *)
Lemma first_match_split (ca h : str) :
  Exists (λ x, x ∈ ca) h →
  ∃ pre c suf, h = pre ++ c :: suf ∧ c ∈ ca ∧ Forall (λ x, x ∉ ca) pre.
Proof.
  induction h as [|y h IH]; intros He; [by apply Exists_nil in He|].
  destruct (decide (y ∈ ca)) as [Hy|Hy]; [by exists [], y, h|].
  apply Exists_cons in He as [He|He]; [contradiction|].
  destruct (IH He) as (pre & c & suf & -> & Hc & Hpre).
  exists (y :: pre), c, suf. repeat split; [done|]. by constructor.
Qed.

Lemma not_Exists_matches (cb h : str) :
  ¬ Exists (λ x, x ∈ cb) h → Forall (λ x, x ∉ cb) h.
Proof. intros H. apply not_Exists_Forall in H; [exact H | intros ?; apply _]. Qed.

(** Whatever the cut-after stage returns holds no [cutAfter] character. *)
Lemma Forall_notin_nil (s : str) : Forall (λ x : ascii, x ∉ []) s.
Proof. apply Forall_forall. intros x _ Hx. by apply elem_of_nil in Hx. Qed.

Lemma cut_after_stage_clean (h : str) (ca : option str) :
  Forall (λ x, x ∉ Py.chars ca) (cut_after_stage h ca).
Proof.
  destruct ca as [[|a ca]|]; [apply Forall_notin_nil| |apply Forall_notin_nil].
  simpl Py.chars. set (cs := a :: ca).
  destruct (decide (Exists (λ x, x ∈ cs) h)) as [He|Hn].
  - apply first_match_split in He as (pre & c & suf & -> & Hc & Hpre).
    by rewrite cut_after_stage_split.
  - apply not_Exists_matches in Hn.
    by rewrite (cut_after_stage_no_match h (Some cs)).
Qed.

Lemma cut_before_stage_last (pre : str) (c : ascii) (suf cb : str)
    (occ : option Z) :
  c ∈ cb → Forall (λ x, x ∉ cb) suf → Py.truthy_int occ = false →
  cut_before_stage (pre ++ c :: suf) (Some cb) occ = Ok suf.
Proof.
  intros Hc Hsuf Hocc. apply cut_before_stage_split; [exact Hc|].
  simpl. rewrite Hocc. simpl.
  unfold Py.len. rewrite occurrences_from_length, matches_app.
  rewrite matches_cons_in by exact Hc.
  rewrite (matches_none cb suf) by exact Hsuf. lia.
Qed.

(** With no occurrence index, what the cut-before stage returns holds no
    [cutBefore] character. *)
Lemma cut_before_stage_clean (h h1 : str) (cb : option str) (occ : option Z) :
  Py.truthy_int occ = false →
  cut_before_stage h cb occ = Ok h1 →
  Forall (λ x, x ∉ Py.chars cb) h1.
Proof.
  intros Hocc H.
  destruct cb as [[|a cb]|]; [apply Forall_notin_nil| |apply Forall_notin_nil].
  simpl Py.chars. set (cs := a :: cb) in *.
  destruct (decide (Exists (λ x, x ∈ cs) h)) as [He|Hn].
  - apply Exists_exists in He.
    apply last_match_split in He as (pre & c & suf & -> & Hc & Hsuf).
    rewrite cut_before_stage_last in H by assumption. by injection H as <-.
  - apply not_Exists_matches in Hn.
    rewrite (cut_before_stage_no_match h (Some cs)) in H by exact Hn.
    by injection H as <-.
Qed.

Lemma Forall_notin_subseteq (cs s s' : str) :
  s' ⊆ s → Forall (λ x, x ∉ cs) s → Forall (λ x, x ∉ cs) s'.
Proof. rewrite !Forall_forall. intros Hs H x Hx. apply H, Hs, Hx. Qed.

Lemma cut_header_Ok_inv (h h' : str) (cb : option str) (occ : option Z)
    (ca : option str) :
  cut_header h cb occ ca = Ok h' →
  ∃ h1, cut_before_stage h cb occ = Ok h1 ∧
        h' = cut_after_stage h1 ca ∧ h' ≠ [].
Proof.
  unfold cut_header. intros H.
  destruct (cut_before_stage h cb occ) as [h1|e]; [|discriminate].
  simpl in H. apply check_header_Ok in H as [-> Hne]. by exists h1.
Qed.

(** ** Shape of the result *)

(** X1: a header that [cut_header] returns is not empty and is a contiguous part
    of the header it was given: a prefix of it when [cutBefore] is absent, a
    suffix of it when [cutAfter] is absent. *)
Theorem cut_header_result_substring (h h' : str) (cb : option str)
    (occ : option Z) (ca : option str) :
  cut_header h cb occ ca = Ok h' →
  h' ≠ [] ∧
  (∃ pre suf, h = pre ++ h' ++ suf) ∧
  (Py.truthy cb = false → h' `prefix_of` h) ∧
  (Py.truthy ca = false → h' `suffix_of` h).
Proof.
  intros (h1 & Hb & -> & Hne)%cut_header_Ok_inv.
  pose proof (cut_before_stage_suffix _ _ _ _ Hb) as [pre Hpre].
  pose proof (cut_after_stage_prefix h1 ca) as [suf Hsuf].
  split; [exact Hne|]. split; [|split].
  - exists pre, suf. by rewrite <- Hsuf.
  - intros Hcb. rewrite cut_before_stage_falsy in Hb by exact Hcb.
    injection Hb as <-. by exists suf.
  - intros Hca. rewrite cut_after_stage_falsy by exact Hca. by exists pre.
Qed.

Lemma cut_header_result_substring_witness :
  txt "chr1" ≠ [] ∧
  (∃ pre suf, txt "S#chr1 len=5" = pre ++ txt "chr1" ++ suf).
Proof.
  pose proof (cut_header_result_substring (txt "S#chr1 len=5") (txt "chr1")
                (Some (txt "#")) None (Some (txt " "))) as H.
  destruct H as (H1 & H2 & _); [vm_compute; reflexivity|].
  exact (conj H1 H2).
Defined.

(** X2: a header that [cut_header] returns holds no character of [cutAfter]. *)
Theorem cut_header_result_without_cut_after (h h' : str) (cb : option str)
    (occ : option Z) (ca : option str) :
  cut_header h cb occ ca = Ok h' →
  Forall (λ x, x ∉ Py.chars ca) h'.
Proof.
  intros (h1 & _ & -> & _)%cut_header_Ok_inv. apply cut_after_stage_clean.
Qed.

Lemma cut_header_result_without_cut_after_witness :
  Forall (λ x, x ∉ txt " :") (txt "chr1").
Proof.
  apply (cut_header_result_without_cut_after (txt "S#chr1 AC:CM1") (txt "chr1")
           (Some (txt "#")) None (Some (txt " :"))).
  vm_compute. reflexivity.
Defined.

(** X3: when the occurrence index is unset or zero, a header that [cut_header]
    returns holds no character of [cutBefore] either. *)
Theorem cut_header_result_without_cut_before (h h' : str) (cb : option str)
    (occ : option Z) (ca : option str) :
  Py.truthy_int occ = false →
  cut_header h cb occ ca = Ok h' →
  Forall (λ x, x ∉ Py.chars cb) h'.
Proof.
  intros Hocc (h1 & Hb & -> & _)%cut_header_Ok_inv.
  apply (Forall_notin_subseteq _ h1); [apply cut_after_stage_subseteq|].
  by eapply cut_before_stage_clean.
Qed.

Lemma cut_header_result_without_cut_before_witness :
  Forall (λ x, x ∉ txt "#|") (txt "chr1").
Proof.
  apply (cut_header_result_without_cut_before (txt "S#1|chr1") (txt "chr1")
           (Some (txt "#|")) None None).
  - reflexivity.
  - vm_compute. reflexivity.
Defined.

(** X4: when the occurrence index is unset or zero, [cut_header] is idempotent:
    applied to a header it has returned, with the same parameters, it returns
    that header again. *)
Theorem cut_header_idempotent (h h' : str) (cb : option str)
    (occ : option Z) (ca : option str) :
  Py.truthy_int occ = false →
  cut_header h cb occ ca = Ok h' →
  cut_header h' cb occ ca = Ok h'.
Proof.
  intros Hocc (h1 & Hb & -> & Hne)%cut_header_Ok_inv.
  set (h' := cut_after_stage h1 ca) in *.
  assert (Forall (λ x, x ∉ Py.chars ca) h') as Hca
    by apply cut_after_stage_clean.
  assert (Forall (λ x, x ∉ Py.chars cb) h') as Hcb.
  { apply (Forall_notin_subseteq _ h1); [apply cut_after_stage_subseteq|].
    by eapply cut_before_stage_clean. }
  rewrite (cut_header_stages h' h' cb occ ca)
    by (by apply cut_before_stage_no_match).
  rewrite cut_after_stage_no_match by exact Hca.
  by apply check_header_nonempty.
Qed.

Lemma cut_header_idempotent_witness :
  cut_header (txt "chr1") (Some (txt "#")) None (Some (txt " ")) = Ok (txt "chr1").
Proof.
  apply (cut_header_idempotent (txt "S#chr1 len=5") (txt "chr1")
           (Some (txt "#")) None (Some (txt " "))).
  - reflexivity.
  - vm_compute. reflexivity.
Defined.

(** With an explicit occurrence index the second call may cut again. *)
Example cut_header_first_occurrence_twice :
  cut_header (txt "a#b#c") (Some (txt "#")) (Some 1%Z) None = Ok (txt "b#c") ∧
  cut_header (txt "b#c") (Some (txt "#")) (Some 1%Z) None = Ok (txt "c").
Proof. split; vm_compute; reflexivity. Qed.

(** X5: cutting before and after in one call is cutting before in a first call
    and after in a second one, failures included. *)
Theorem cut_header_sequential (h : str) (cb : option str) (occ : option Z)
    (ca : option str) :
  cut_header h cb occ ca
  = (do h1 <- cut_header h cb occ None; cut_header h1 None None ca).
Proof.
  unfold cut_header at 1 2.
  destruct (cut_before_stage h cb occ) as [h1|e]; [|reflexivity].
  simpl bind at 1 3. change (cut_after_stage h1 None) with h1.
  destruct h1 as [|c h1].
  - rewrite check_header_empty. simpl.
    assert (cut_after_stage [] ca = []) as ->; [|apply check_header_empty].
    pose proof (cut_after_stage_subseteq [] ca) as Hs.
    destruct (cut_after_stage [] ca) as [|x l]; [reflexivity|].
    specialize (Hs x (list_elem_of_here _ _)). by apply elem_of_nil in Hs.
  - reflexivity.
Qed.

(** ** Failures *)

Lemma index_Raise {A} (l : list A) (k : Z) (e : exn) :
  Py.index l k = Raise e → e = IndexError.
Proof.
  unfold Py.index. destruct (_ <? 0)%Z; [by intros [= <-]|].
  destruct (l !! _); [discriminate | by intros [= <-]].
Qed.

Lemma index_in_range {A} (l : list A) (k : Z) :
  (0 ≤ (if k <? 0 then k + Py.len l else k) < Py.len l)%Z →
  ∃ x, Py.index l k = Ok x.
Proof.
  intros Hk. unfold Py.index. cbv zeta.
  set (k' := (if k <? 0 then k + Py.len l else k)%Z) in *.
  assert ((k' <? 0)%Z = false) as -> by (apply Z.ltb_ge; lia).
  destruct (l !! Z.to_nat k') as [x|] eqn:E; [by exists x|].
  apply lookup_ge_None in E. unfold Py.len in Hk. lia.
Qed.

(** The cut-before stage fails only on a negative occurrence index, and then
    with [IndexError]. *)
Lemma cut_before_stage_Raise (h : str) (cb : option str) (occ : option Z)
    (e : exn) :
  cut_before_stage h cb occ = Raise e →
  e = IndexError ∧ ∃ k, occ = Some k ∧ (k < 0)%Z.
Proof.
  unfold cut_before_stage. destruct (Py.truthy cb); [|discriminate].
  destruct (_ <$> _) as [|z zs] eqn:Eo; [discriminate|].
  set (occs := z :: zs).
  assert (0 < Py.len occs)%Z as Hlen by (unfold Py.len; simpl; lia).
  destruct (Py.truthy_int occ) eqn:Ht; simpl negb; cbv iota.
  - destruct occ as [k|]; [|discriminate]. simpl default. unfold id.
    destruct (decide (0 < k)%Z) as [Hk|Hk].
    + destruct (index_in_range occs (Z.min (Py.len occs) k - 1)) as [x ->].
      { assert ((Z.min (Py.len occs) k - 1 <? 0)%Z = false) as ->
          by (apply Z.ltb_ge; lia). lia. }
      simpl. by repeat case_match.
    + destruct (Py.index occs _) as [x|e'] eqn:Ei.
      * simpl. by repeat case_match.
      * simpl. intros [= <-]. apply index_Raise in Ei as ->.
        split; [reflexivity|]. exists k. split; [reflexivity|].
        destruct k; [discriminate | lia | lia].
  - destruct (index_in_range occs (-1)) as [x ->]; [simpl; lia|].
    simpl. by repeat case_match.
Qed.

(** X6: [cut_header] never raises the [RuntimeError] of line 84.  It fails with
    [NameError] when the header is emptied (or was empty), and with
    [IndexError] only when the occurrence index is negative. *)
Theorem cut_header_exceptions (h : str) (cb : option str) (occ : option Z)
    (ca : option str) (e : exn) :
  cut_header h cb occ ca = Raise e →
  (e = NameError "seq_record" ∧
   ∃ h1, cut_before_stage h cb occ = Ok h1 ∧ cut_after_stage h1 ca = []) ∨
  (e = IndexError ∧ ∃ k, occ = Some k ∧ (k < 0)%Z).
Proof.
  unfold cut_header.
  destruct (cut_before_stage h cb occ) as [h1|e'] eqn:Hb.
  - simpl. destruct (cut_after_stage h1 ca) as [|c s] eqn:Ha; [|discriminate].
    rewrite check_header_empty. intros [= <-]. left.
    split; [reflexivity|]. by exists h1.
  - simpl. intros [= <-]. right. by apply cut_before_stage_Raise in Hb.
Qed.

Lemma cut_header_exceptions_witness :
  (NameError "seq_record" = NameError "seq_record" ∧
   ∃ h1, cut_before_stage (txt "chr1#") (Some (txt "#")) None = Ok h1 ∧
         cut_after_stage h1 None = []) ∨
  (NameError "seq_record" = IndexError ∧
   ∃ k, @None Z = Some k ∧ (k < 0)%Z).
Proof.
  apply (cut_header_exceptions (txt "chr1#") (Some (txt "#")) None None).
  vm_compute. reflexivity.
Defined.

(** X7: a negative occurrence index [k] counts the matching characters from the
    end: the header is cut strictly after the one that has exactly [-k]
    matching characters behind it. *)
Theorem cut_header_negative_index_from_end (pre : str) (c : ascii)
    (suf cb : str) (k : Z) (ca : option str) :
  c ∈ cb →
  (k < 0)%Z →
  Z.of_nat (matches cb suf) = (- k)%Z →
  cut_before_stage (pre ++ c :: suf) (Some cb) (Some k) = Ok suf ∧
  cut_header (pre ++ c :: suf) (Some cb) (Some k) ca
    = check_header (cut_after_stage suf ca).
Proof.
  intros Hc Hk Hm.
  assert (cut_before_stage (pre ++ c :: suf) (Some cb) (Some k) = Ok suf) as Hb.
  { apply cut_before_stage_split; [exact Hc|].
    assert (Py.truthy_int (Some k) = true) as Ht by (by destruct k).
    cbv zeta. rewrite Ht. cbn [negb default].
    unfold Py.len, id. rewrite occurrences_from_length, matches_app.
    rewrite matches_cons_in by exact Hc.
    assert ((Z.of_nat (matches cb pre + S (matches cb suf)) `min` k - 1 <? 0)%Z
            = true) as -> by (apply Z.ltb_lt; lia).
    lia. }
  split; [exact Hb | by apply cut_header_stages].
Qed.

Lemma cut_header_negative_index_from_end_witness :
  cut_header (txt "a#b#c#d") (Some (txt "#")) (Some (-1)%Z) None
  = Ok (txt "c#d").
Proof.
  refine (eq_trans (proj2 (cut_header_negative_index_from_end (txt "a#b") "#"%char
            (txt "c#d") (txt "#") (-1) None _ _ _)) _).
  - vm_compute. apply list_elem_of_here.
  - lia.
  - vm_compute. reflexivity.
  - vm_compute. reflexivity.
Defined.

(** X8: with a negative occurrence index [k], a header that has some matching
    characters, but no more than [-k], makes [cut_header] fail with
    [IndexError]. *)
Theorem cut_header_negative_index_out_of_range (h cb : str) (k : Z)
    (ca : option str) :
  (k < 0)%Z →
  1 ≤ matches cb h →
  (Z.of_nat (matches cb h) ≤ - k)%Z →
  cut_header h (Some cb) (Some k) ca = Raise IndexError.
Proof.
  intros Hk Hm1 Hm2. unfold cut_header, cut_before_stage.
  assert (Py.truthy (Some cb) = true) as ->.
  { destruct cb; [|reflexivity].
    rewrite (matches_none [] h) in Hm1 by apply Forall_notin_nil. lia. }
  simpl Py.chars.
  change ((λ ic : Z * ascii, ic.1) <$> filter _ (Py.enumerate _))
    with (occurrences_from 0 h cb).
  pose proof (occurrences_from_length 0 h cb) as Hlen.
  destruct (occurrences_from 0 h cb) as [|z zs] eqn:Eo; [simpl in Hlen; lia|].
  assert (Py.truthy_int (Some k) = true) as -> by (by destruct k).
  cbn [negb default]. unfold id, Py.index. cbv zeta.
  assert ((Z.min (Py.len (z :: zs)) k - 1 <? 0)%Z = true) as ->
    by (apply Z.ltb_lt; lia).
  assert ((Z.min (Py.len (z :: zs)) k - 1 + Py.len (z :: zs) <? 0)%Z = true)
    as -> by (apply Z.ltb_lt; unfold Py.len; lia).
  reflexivity.
Qed.

Lemma cut_header_negative_index_out_of_range_witness :
  cut_header (txt "a#b") (Some (txt "#")) (Some (-1)%Z) None = Raise IndexError.
Proof.
  apply (cut_header_negative_index_out_of_range (txt "a#b") (txt "#") (-1) None).
  - lia.
  - vm_compute. lia.
  - vm_compute. discriminate.
Defined.

(** X9: with [cutBefore] alone and no occurrence index, [cut_header] fails exactly
    on the empty header and on the headers whose last character belongs to
    [cutBefore]. *)
Theorem cut_header_fails_with_cut_before_iff (h cb : str) (occ : option Z)
    (ca : option str) :
  Py.truthy_int occ = false →
  Py.truthy ca = false →
  (∃ e, cut_header h (Some cb) occ ca = Raise e) ↔
  h = [] ∨ ∃ pre c, h = pre ++ [c] ∧ c ∈ cb.
Proof.
  intros Hocc Hca. split.
  - intros [e He]. destruct h as [|x h]; [by left|]. right.
    destruct (decide (Exists (λ y, y ∈ cb) (x :: h))) as [Hex|Hn].
    + apply Exists_exists in Hex.
      apply last_match_split in Hex as (pre & c & suf & E & Hc & Hsuf).
      rewrite E in He.
      rewrite (cut_header_stages _ suf) in He
        by (by apply cut_before_stage_last).
      rewrite cut_after_stage_falsy in He by exact Hca.
      destruct suf as [|s suf]; [|discriminate]. by exists pre, c.
    + apply not_Exists_matches in Hn.
      rewrite (cut_header_stages _ (x :: h)) in He
        by (by apply (cut_before_stage_no_match _ (Some cb))).
      rewrite cut_after_stage_falsy in He by exact Hca. discriminate.
  - intros [->|(pre & c & -> & Hc)]; exists (NameError "seq_record").
    + apply (cut_header_emptied [] []); [|by apply cut_after_stage_falsy].
      by apply (cut_before_stage_no_match [] (Some cb)).
    + apply (cut_header_emptied _ []); [|by apply cut_after_stage_falsy].
      by apply cut_before_stage_last.
Qed.

Lemma cut_header_fails_with_cut_before_iff_witness :
  ∃ e, cut_header (txt "chr1#") (Some (txt "#")) None None = Raise e.
Proof.
  apply (cut_header_fails_with_cut_before_iff (txt "chr1#") (txt "#") None None);
    [reflexivity | reflexivity |].
  right. exists (txt "chr1"), "#"%char.
  split; [reflexivity | vm_compute; apply list_elem_of_here].
Defined.

(** X10: with [cutAfter] alone, [cut_header] fails exactly on the empty header and
    on the headers whose first character belongs to [cutAfter]. *)
Theorem cut_header_fails_with_cut_after_iff (h : str) (cb : option str)
    (occ : option Z) (ca : str) :
  Py.truthy cb = false →
  (∃ e, cut_header h cb occ (Some ca) = Raise e) ↔
  h = [] ∨ ∃ c suf, h = c :: suf ∧ c ∈ ca.
Proof.
  intros Hcb.
  assert (cut_header h cb occ (Some ca)
          = check_header (cut_after_stage h (Some ca))) as ->
    by (by apply cut_header_stages, cut_before_stage_falsy).
  split.
  - intros [e He]. destruct h as [|x h]; [by left|]. right.
    destruct (decide (Exists (λ y, y ∈ ca) (x :: h))) as [Hex|Hn].
    + apply first_match_split in Hex as (pre & c & suf & E & Hc & Hpre).
      rewrite E, cut_after_stage_split in He by assumption.
      destruct pre as [|p pre]; [|discriminate].
      injection E as -> ->. by exists c, suf.
    + apply not_Exists_matches in Hn.
      rewrite (cut_after_stage_no_match _ (Some ca)) in He by exact Hn.
      discriminate.
  - intros [->|(c & suf & -> & Hc)]; exists (NameError "seq_record").
    + rewrite (cut_after_stage_no_match [] (Some ca)) by constructor.
      apply check_header_empty.
    + pose proof (cut_after_stage_split [] c suf ca Hc (List.Forall_nil _)) as E.
      simpl app in E. rewrite E. apply check_header_empty.
Qed.

Lemma cut_header_fails_with_cut_after_iff_witness :
  ∃ e, cut_header (txt " chr1") None None (Some (txt " ")) = Raise e.
Proof.
  apply (cut_header_fails_with_cut_after_iff (txt " chr1") None None (txt " "));
    [reflexivity |].
  right. exists " "%char, (txt "chr1").
  split; [reflexivity | vm_compute; apply list_elem_of_here].
Defined.

(** * Properties of [CutHeadersJob.run] *)

(** The output file is made of what the writer returns for the records
    handed to it, one per input record and in order. *)
Lemma run_loop_Ok (fasta_text : RecordForWriter → str) (cb : option str)
    (occ : option Z) (ca : option str) (fa : list SeqRecord)
    (acc file : str) :
  run_loop fasta_text cb occ ca fa acc = Ok file →
  ∃ ws, file = acc ++ concat (fasta_text <$> ws) ∧
        Forall2 (handed_to_writer cb occ ca) fa ws.
Proof.
  revert acc. induction fa as [|r fa IH]; intros acc H.
  - injection H as <-. exists []. by rewrite app_nil_r.
  - simpl in H. unfold cut_record in H.
    destruct (cut_header (description r) cb occ ca) as [hd|e] eqn:E;
      [|discriminate].
    simpl in H. apply IH in H as (ws & -> & Hws).
    exists (mkRecordForWriter hd hd (seq r) :: ws).
    split; [by rewrite fmap_cons, <- app_assoc|]. by constructor.
Qed.

Lemma cut_header_falsy (h : str) (cb : option str) (occ : option Z)
    (ca : option str) :
  Py.truthy cb = false → Py.truthy ca = false →
  cut_header h cb occ ca = check_header h.
Proof.
  intros Hcb Hca. rewrite (cut_header_stages h h)
    by (by apply cut_before_stage_falsy).
  by rewrite cut_after_stage_falsy.
Qed.

(** The row of a record whose header [cut_header] accepts. *)
Lemma header_row_of_cut (ev : str) (cb : option str) (occ : option Z)
    (ca : option str) (r : SeqRecord) (hd : str) :
  cut_header (description r) cb occ ca = Ok hd →
  header_row cut_header ev cb occ ca r
  = Ok (format_row (description r) hd ev (length (seq r))).
Proof.
  intros H. unfold header_row.
  destruct (Py.truthy cb) eqn:Hcb; simpl orb; [by rewrite H|].
  destruct (Py.truthy ca) eqn:Hca; [by rewrite H|].
  rewrite cut_header_falsy in H by assumption.
  by apply check_header_Ok in H as [-> _].
Qed.

Lemma write_rows_of_written (ev : str) (cb : option str) (occ : option Z)
    (ca : option str) (fa : list SeqRecord) (ws : list RecordForWriter)
    (acc : str) :
  Forall2 (handed_to_writer cb occ ca) fa ws →
  write_rows cut_header ev cb occ ca fa acc
  = Ok (acc ++ concat (zip_with (written_row ev) fa ws)).
Proof.
  intros H. revert acc. induction H as [|r w fa ws Hrw _ IH]; intros acc.
  - simpl. by rewrite app_nil_r.
  - destruct Hrw as (Hc & _ & _). simpl write_rows.
    rewrite (header_row_of_cut ev cb occ ca r _ Hc), bind_Ok, IH.
    simpl. unfold written_row at 2. by rewrite app_assoc.
Qed.

Lemma handed_to_writer_shape (cb : option str) (occ : option Z)
    (ca : option str) (fa : list SeqRecord) (ws : list RecordForWriter) :
  Forall2 (handed_to_writer cb occ ca) fa ws →
  length ws = length fa ∧
  w_seq <$> ws = seq <$> fa ∧
  Forall (λ w, w_id w = w_description w ∧ w_description w ≠ []) ws.
Proof.
  induction 1 as [|r w fa ws Hrw _ (IH1 & IH2 & IH3)]; [by repeat split|].
  destruct Hrw as (Hc & Hid & Hseq).
  rewrite !fmap_cons. simpl length. rewrite IH1, IH2, Hseq.
  repeat split. constructor; [|exact IH3]. split; [exact Hid|].
  by apply cut_header_Ok_inv in Hc as (_ & _ & _ & ?).
Qed.

(** X11: when the job succeeds, its output file is the concatenation, in the
    order of the input, of the texts the writer returns for one record per
    input record.  The record handed to the writer for an input record has
    the sequence unchanged and, both as its [id] and as its [description],
    the non-empty header that [cut_header] returns for the description.  This
    holds whatever the writer prints for a record; what the title line of the
    file looks like is not stated. *)
Theorem CutHeadersJob_run_records (fasta_text : RecordForWriter → str)
    (fasta : list SeqRecord) (cutBefore : option str)
    (cutBeforeOcc : option Z) (cutAfter : option str) (file : str) :
  CutHeadersJob_run fasta_text fasta cutBefore cutBeforeOcc cutAfter
    = Ok file →
  ∃ ws,
    file = concat (fasta_text <$> ws) ∧
    Forall2 (handed_to_writer cutBefore cutBeforeOcc cutAfter) fasta ws ∧
    length ws = length fasta ∧
    w_seq <$> ws = seq <$> fasta ∧
    Forall (λ w, w_id w = w_description w ∧ w_description w ≠ []) ws.
Proof.
  intros (ws & -> & H)%run_loop_Ok. exists ws.
  split; [reflexivity|]. split; [exact H|].
  exact (handed_to_writer_shape _ _ _ _ _ H).
Qed.

(* The writer used here stands for any writer. *)
Lemma CutHeadersJob_run_records_witness :
  ∃ ws,
    txt "chr1:ACGT;chr2 x:AC;"
    = concat ((λ w, w_id w ++ ":"%char :: w_seq w ++ [";"%char]) <$> ws) ∧
    Forall2 (handed_to_writer (Some (txt "#")) None None)
      [mkSeqRecord (txt "S#chr1") (txt "ACGT");
       mkSeqRecord (txt "S#chr2 x") (txt "AC")] ws ∧
    length ws = 2 ∧
    w_seq <$> ws = [txt "ACGT"; txt "AC"] ∧
    Forall (λ w, w_id w = w_description w ∧ w_description w ≠ []) ws.
Proof.
  apply (CutHeadersJob_run_records
           (λ w, w_id w ++ ":"%char :: w_seq w ++ [";"%char])
           [mkSeqRecord (txt "S#chr1") (txt "ACGT");
            mkSeqRecord (txt "S#chr2 x") (txt "AC")]
           (Some (txt "#")) None None).
  vm_compute. reflexivity.
Defined.

(** X12: when the job succeeds on the records of a file, the table of that
    file is built too, and the [cut_header] column of the row of a record is
    exactly the string that the job stored as [id] and [description] of the
    record it handed to the writer.  Whether the title line the writer
    prints from them equals that string is not stated. *)
Theorem make_one_header_table_matches_run
    (fasta_text : RecordForWriter → str) (fasta : list SeqRecord)
    (cutBefore : option str) (cutBeforeOcc : option Z)
    (cutAfter : option str) (file : str) :
  CutHeadersJob_run fasta_text fasta cutBefore cutBeforeOcc cutAfter
    = Ok file →
  ∃ ws,
    file = concat (fasta_text <$> ws) ∧
    length ws = length fasta ∧
    Forall (λ w, w_id w = w_description w) ws ∧
    ∀ event,
      make_one_header_table fasta event cutBefore cutBeforeOcc cutAfter
      = Ok (concat (zip_with (written_row event) fasta ws)).
Proof.
  intros (ws & -> & H)%run_loop_Ok. exists ws.
  destruct (handed_to_writer_shape _ _ _ _ _ H) as (Hlen & _ & Hid).
  split; [reflexivity|]. split; [exact Hlen|]. split.
  - eapply Forall_impl; [exact Hid|]. by intros w [? _].
  - intros event. unfold make_one_header_table, make_one_header_table_with.
    by rewrite (write_rows_of_written event _ _ _ _ ws).
Qed.

(* The writer used here stands for any writer. *)
Lemma make_one_header_table_matches_run_witness :
  ∃ ws,
    txt "chr1:ACGT;chr2 x:AC;"
    = concat ((λ w, w_id w ++ ":"%char :: w_seq w ++ [";"%char]) <$> ws) ∧
    length ws = 2 ∧
    Forall (λ w, w_id w = w_description w) ws ∧
    ∀ event,
      make_one_header_table
        [mkSeqRecord (txt "S#chr1") (txt "ACGT");
         mkSeqRecord (txt "S#chr2 x") (txt "AC")]
        event (Some (txt "#")) None None
      = Ok (concat (zip_with (written_row event)
              [mkSeqRecord (txt "S#chr1") (txt "ACGT");
               mkSeqRecord (txt "S#chr2 x") (txt "AC")] ws)).
Proof.
  apply (make_one_header_table_matches_run
           (λ w, w_id w ++ ":"%char :: w_seq w ++ [";"%char])
           [mkSeqRecord (txt "S#chr1") (txt "ACGT");
            mkSeqRecord (txt "S#chr2 x") (txt "AC")]
           (Some (txt "#")) None None).
  vm_compute. reflexivity.
Defined.

(** The table keeps the header with its white space, as the job stores it. *)
Example make_one_header_table_header_with_space :
  make_one_header_table [mkSeqRecord (txt "S#chr2 x") (txt "AC")]
    (txt "E") (Some (txt "#")) None None
  = Ok (format_row (txt "S#chr2 x") (txt "chr2 x") (txt "E") 2).
Proof. vm_compute. reflexivity. Qed.

Lemma run_loop_falsy_Ok (fasta_text : RecordForWriter → str)
    (cb : option str) (occ : option Z) (ca : option str)
    (fa : list SeqRecord) (acc : str) :
  Py.truthy cb = false → Py.truthy ca = false →
  Forall (λ r, description r ≠ []) fa →
  run_loop fasta_text cb occ ca fa acc
  = Ok (acc ++ concat (fasta_text <$> (unchanged_record <$> fa))).
Proof.
  intros Hcb Hca H. revert acc. induction H as [|r fa Hr _ IH]; intros acc.
  - simpl. by rewrite app_nil_r.
  - simpl run_loop. unfold cut_record.
    rewrite cut_header_falsy, check_header_nonempty by assumption.
    rewrite bind_Ok, bind_Ok, IH, !fmap_cons. simpl concat.
    by rewrite <- app_assoc.
Qed.

Lemma run_loop_falsy_Raise (fasta_text : RecordForWriter → str)
    (cb : option str) (occ : option Z) (ca : option str)
    (fa : list SeqRecord) (acc : str) :
  Py.truthy cb = false → Py.truthy ca = false →
  Exists (λ r, description r = []) fa →
  run_loop fasta_text cb occ ca fa acc = Raise (NameError "seq_record").
Proof.
  intros Hcb Hca H. revert acc. induction fa as [|r fa IH]; intros acc.
  - by apply Exists_nil in H.
  - simpl run_loop. unfold cut_record.
    rewrite cut_header_falsy by assumption.
    destruct (description r) as [|c d] eqn:E.
    + by rewrite check_header_empty.
    + simpl. apply IH. apply Exists_cons in H as [H|H]; [congruence | exact H].
Qed.

(** X13: without cut parameters the job still runs every header through the
    emptiness check.  When all descriptions are non-empty, every record is
    handed to the writer with its description as [id] and as [description]
    and with its sequence, and the output file is what the writer returns
    for these records; one record with an empty description makes the job
    fail with [NameError], although the table of the same file is built. *)
Theorem CutHeadersJob_run_without_parameters
    (fasta_text : RecordForWriter → str) (fasta : list SeqRecord)
    (event : str) (cutBefore : option str) (cutBeforeOcc : option Z)
    (cutAfter : option str) :
  Py.truthy cutBefore = false →
  Py.truthy cutAfter = false →
  (Forall (λ r, description r ≠ []) fasta →
   CutHeadersJob_run fasta_text fasta cutBefore cutBeforeOcc cutAfter
   = Ok (concat (fasta_text <$> (unchanged_record <$> fasta)))) ∧
  (Exists (λ r, description r = []) fasta →
   CutHeadersJob_run fasta_text fasta cutBefore cutBeforeOcc cutAfter
   = Raise (NameError "seq_record") ∧
   make_one_header_table fasta event cutBefore cutBeforeOcc cutAfter
   = Ok (concat (uncut_row event <$> fasta))).
Proof.
  intros Hcb Hca. unfold CutHeadersJob_run. split.
  - intros H. by rewrite run_loop_falsy_Ok.
  - intros H. split; [by apply run_loop_falsy_Raise|].
    unfold make_one_header_table, make_one_header_table_with.
    by rewrite write_rows_uncut.
Qed.

(* The writer used here stands for any writer. *)
Lemma CutHeadersJob_run_without_parameters_witness :
  CutHeadersJob_run (λ w, w_id w ++ ":"%char :: w_seq w ++ [";"%char])
    [mkSeqRecord (txt "chr1") (txt "ACGT"); mkSeqRecord (txt "") (txt "AC")]
    None None None
  = Raise (NameError "seq_record").
Proof.
  refine (proj1 (proj2 (CutHeadersJob_run_without_parameters
            (λ w, w_id w ++ ":"%char :: w_seq w ++ [";"%char])
            [mkSeqRecord (txt "chr1") (txt "ACGT"); mkSeqRecord (txt "") (txt "AC")]
            (txt "E") None None None _ _) _)).
  - reflexivity.
  - reflexivity.
  - apply Exists_cons_tl, Exists_cons_hd. reflexivity.
Defined.

(** * Properties of [make_cut_header_table] *)

(** ** The cut parameters read from the configuration *)

Lemma cut_parameters_loop_app (a b : list PrepNode)
    (params : option str * option Z * option str) :
  cut_parameters_loop (a ++ b) params
  = cut_parameters_loop b (cut_parameters_loop a params).
Proof. revert params. induction a as [|n a IH]; intros params; [done|]. apply IH. Qed.

Lemma cut_parameters_loop_inactive (nodes : list PrepNode)
    (params : option str * option Z * option str) :
  Forall (λ n, is_active_cutHeaders n = false) nodes →
  cut_parameters_loop nodes params = params.
Proof.
  intros H. revert params. induction H as [|n nodes Hn _ IH]; intros params;
    [reflexivity|].
  simpl. rewrite Hn. apply IH.
Qed.

(** X14: the parameters are those of the last preprocessor node that is an active
    [cutHeaders] node, the attributes it lacks being [None]: those of an
    earlier such node are not kept. *)
Theorem cut_parameters_last_active (pre : list PrepNode) (n : PrepNode)
    (post : list PrepNode) :
  is_active_cutHeaders n = true →
  Forall (λ n', is_active_cutHeaders n' = false) post →
  cut_parameters (pre ++ n :: post)
  = (node_cutBefore n, node_cutBeforeOcc n, node_cutAfter n).
Proof.
  intros Hn Hpost. unfold cut_parameters.
  rewrite cut_parameters_loop_app. simpl. rewrite Hn.
  by apply cut_parameters_loop_inactive.
Qed.

Lemma cut_parameters_last_active_witness :
  cut_parameters
    [mkPrepNode (Some (txt "cutHeaders")) (Some true)
       (Some (txt "#")) (Some 2%Z) (Some (txt " "));
     mkPrepNode (Some (txt "cutHeaders")) (Some true) (Some (txt "|")) None None;
     mkPrepNode (Some (txt "cutHeaders")) (Some false) (Some (txt "x")) None None;
     mkPrepNode (Some (txt "checkUniqueHeaders")) (Some true) None None None]
  = (Some (txt "|"), None, None).
Proof.
  apply (cut_parameters_last_active
           [mkPrepNode (Some (txt "cutHeaders")) (Some true)
              (Some (txt "#")) (Some 2%Z) (Some (txt " "))]
           (mkPrepNode (Some (txt "cutHeaders")) (Some true)
              (Some (txt "|")) None None)).
  - reflexivity.
  - repeat constructor.
Defined.

Lemma header_tables_uncut (samples : list (list SeqRecord * str))
    (cb : option str) (occ : option Z) (ca : option str) :
  Py.truthy cb = false → Py.truthy ca = false →
  header_tables samples cb occ ca
  = Ok ((λ sample, concat (uncut_row (sample.2) <$> sample.1)) <$> samples).
Proof.
  intros Hcb Hca. induction samples as [|[fa ev] samples IH]; [reflexivity|].
  simpl header_tables. unfold make_one_header_table, make_one_header_table_with.
  rewrite write_rows_uncut by assumption. rewrite IH. reflexivity.
Qed.

(** X15: without an active [cutHeaders] node in the configuration no header is
    cut: the result is the join of the tables whose rows repeat the
    description in both columns, so that building the tables cannot fail. *)
Theorem make_cut_header_table_no_active_node
    (input_fas : list (list SeqRecord)) (prep_nodes : list PrepNode)
    (event_names : list str) :
  Forall (λ n, is_active_cutHeaders n = false) prep_nodes →
  make_cut_header_table_of_config input_fas prep_nodes event_names
  = join_header_table
      ((λ sample, concat (uncut_row (sample.2) <$> sample.1))
         <$> zip input_fas event_names).
Proof.
  intros H. unfold make_cut_header_table_of_config, cut_parameters.
  rewrite cut_parameters_loop_inactive by exact H.
  unfold make_cut_header_table. by rewrite header_tables_uncut.
Qed.

Lemma make_cut_header_table_no_active_node_witness :
  make_cut_header_table_of_config
    [[mkSeqRecord (txt "") (txt "ACGT")]; [mkSeqRecord (txt "S#chr1") (txt "")]]
    [mkPrepNode (Some (txt "cutHeaders")) (Some false) (Some (txt "#")) None None]
    [txt "A"; txt "B"]
  = Ok (format_row (txt "") (txt "") (txt "A") 4 ++
        format_row (txt "S#chr1") (txt "S#chr1") (txt "B") 0).
Proof.
  refine (eq_trans (make_cut_header_table_no_active_node
            [[mkSeqRecord (txt "") (txt "ACGT")];
             [mkSeqRecord (txt "S#chr1") (txt "")]]
            [mkPrepNode (Some (txt "cutHeaders")) (Some false)
               (Some (txt "#")) None None]
            [txt "A"; txt "B"] _) _).
  - repeat constructor.
  - vm_compute. reflexivity.
Defined.

(** ** Files and event names are paired in order *)

(** X16: files beyond the number of event names, and event names beyond the number
    of files, are left out of the table without any error. *)
Theorem make_cut_header_table_unpaired (input_fas more_fas : list (list SeqRecord))
    (event_names more_names : list str) (cut_before : option str)
    (cut_before_occ : option Z) (cut_after : option str) :
  length input_fas = length event_names →
  make_cut_header_table (input_fas ++ more_fas) event_names
    cut_before cut_before_occ cut_after
  = make_cut_header_table input_fas event_names
      cut_before cut_before_occ cut_after ∧
  make_cut_header_table input_fas (event_names ++ more_names)
    cut_before cut_before_occ cut_after
  = make_cut_header_table input_fas event_names
      cut_before cut_before_occ cut_after.
Proof.
  intros Hlen. unfold make_cut_header_table. split.
  - rewrite (zip_with_app_l _ input_fas more_fas event_names).
    rewrite Hlen, take_ge, drop_ge by lia.
    by rewrite zip_with_nil_r, app_nil_r.
  - rewrite (zip_with_app_r _ input_fas event_names more_names).
    rewrite <- Hlen, take_ge, drop_ge by lia.
    by rewrite zip_with_nil_l, app_nil_r.
Qed.

Lemma make_cut_header_table_unpaired_witness :
  make_cut_header_table
    [[mkSeqRecord (txt "chr1") (txt "ACGT")];
     [mkSeqRecord (txt "chr1") (txt "ACGT")]]
    [txt "A"] None None None
  = make_cut_header_table [[mkSeqRecord (txt "chr1") (txt "ACGT")]]
      [txt "A"] None None None.
Proof.
  refine (proj1 (make_cut_header_table_unpaired
            [[mkSeqRecord (txt "chr1") (txt "ACGT")]]
            [[mkSeqRecord (txt "chr1") (txt "ACGT")]]
            [txt "A"] [] None None None _)).
  reflexivity.
Defined.

(** ** Duplicates, from the records to the join step *)

Lemma check_unique_first_repeat_keys (ls : list str) (kpre : list str)
    (k : str) (kpost : list str) :
  row_key <$> ls = kpre ++ k :: kpost →
  NoDup kpre → k ∈ kpre →
  check_unique ls ∅ = Raise (RuntimeError (duplicate_header_msg k)).
Proof.
  intros E Hnd Hk.
  apply fmap_app_inv in E as (pre & rest & -> & Hrest & ->).
  symmetry in Hrest. apply fmap_cons_inv in Hrest as (r & post & -> & -> & ->).
  apply check_unique_first_repeat; [exact Hnd | | by right].
  intros ? _. set_solver.
Qed.

(** X17: for samples with single-line descriptions and event names whose tables
    were built, the join step succeeds exactly when no value of the
    [original_header] column occurs for two records; and the first record
    whose value occurred for an earlier record, of the same sample or of an
    earlier one, makes it fail with the [RuntimeError] whose message is the
    text of line 145 with this value in it. *)
Theorem make_cut_header_table_duplicate_record
    (samples : list (list SeqRecord * str)) (cut_before : option str)
    (cut_before_occ : option Z) (cut_after : option str)
    (tables : list str) :
  Forall single_line_sample samples →
  header_tables samples cut_before cut_before_occ cut_after = Ok tables →
  ((∃ T, join_header_table tables = Ok T) ↔
   NoDup (original_header_column <$> all_records samples)) ∧
  (∀ pre r post,
     all_records samples = pre ++ r :: post →
     NoDup (original_header_column <$> pre) →
     original_header_column r ∈ original_header_column <$> pre →
     join_header_table tables
     = Raise (RuntimeError
         (txt "Error: fasta header " ++ original_header_column r ++
          txt " found in more than one sample.  Headers must be unique to make table"))).
Proof.
  intros Hs Ht.
  destruct (header_tables_bodies _ _ _ _ _ Hs Ht) as (bodies & Hcat & Hb & Hk).
  assert (row_key <$> table_rows (catFiles tables)
          = original_header_column <$> all_records samples) as Hkeys.
  { rewrite Hcat, <- (app_nil_r (concat _)).
    rewrite table_rows_concat by exact Hb.
    change (table_rows []) with (@nil str).
    by rewrite app_nil_r, <- list_fmap_compose. }
  split.
  - rewrite <- Hkeys. split.
    + intros [T HT]. by apply join_header_table_Ok in HT as [_ ?].
    + intros Hnd. eexists. by apply join_header_table_NoDup.
  - intros pre r post E Hnd Hr. rewrite <- duplicate_header_msg_text.
    apply join_header_table_Raise.
    apply (check_unique_first_repeat_keys _ (original_header_column <$> pre)
             _ (original_header_column <$> post)); [|exact Hnd|exact Hr].
    by rewrite Hkeys, E, fmap_app, fmap_cons.
Qed.

Lemma make_cut_header_table_duplicate_record_witness :
  join_header_table
    [format_row (txt "S#chr1") (txt "chr1") (txt "A") 4;
     format_row (txt "S#chr1") (txt "chr1") (txt "B") 2]
  = Raise (RuntimeError
      (txt "Error: fasta header S#chr1 found in more than one sample.  Headers must be unique to make table")).
Proof.
  pose (samples :=
    [([mkSeqRecord (txt "S#chr1") (txt "ACGT")], txt "A");
     ([mkSeqRecord (txt "S#chr1") (txt "AC")], txt "B")]).
  assert (Forall single_line_sample samples) as Hs
    by (repeat constructor; by_evaluation).
  refine (eq_trans (proj2 (make_cut_header_table_duplicate_record samples
            (Some (txt "#")) None None _ Hs _)
            [mkSeqRecord (txt "S#chr1") (txt "ACGT")]
            (mkSeqRecord (txt "S#chr1") (txt "AC")) [] _ _ _) _).
  - vm_compute. reflexivity.
  - reflexivity.
  - vm_compute. apply NoDup_singleton.
  - vm_compute. apply list_elem_of_here.
  - vm_compute. reflexivity.
Defined.

(** ** Reading a row back *)

Lemma split_no_tab (f : str) : TAB ∉ f → split TAB f = [f].
Proof.
  induction f as [|c f IH]; intros Hf; [reflexivity|].
  apply not_elem_of_cons in Hf as [Hc Hf]. simpl.
  rewrite decide_False by congruence. by rewrite IH.
Qed.

Lemma split_app_tab (f rest : str) :
  TAB ∉ f → split TAB (f ++ TAB :: rest) = f :: split TAB rest.
Proof.
  induction f as [|c f IH]; intros Hf; [reflexivity|].
  apply not_elem_of_cons in Hf as [Hc Hf]. simpl.
  rewrite decide_False by congruence. by rewrite IH.
Qed.

(** X18: splitting a written row at its tabs, as the join step does, gives back
    the four columns, provided the description, the header and the event
    name hold no tab. *)
Theorem format_row_split (d h ev : str) (n : nat) :
  TAB ∉ d → TAB ∉ h → TAB ∉ ev →
  split TAB (rstrip (format_row d h ev n)) = [d; h; ev; str_of_nat n].
Proof.
  intros Hd Hh He. rewrite format_row_body, rstrip_row_body. unfold row_body.
  rewrite !split_app_tab by assumption. rewrite split_no_tab; [reflexivity|].
  intros Hin. pose proof (str_of_nat_digits n) as Hn.
  rewrite Forall_forall in Hn. apply Hn, digit_chars in Hin. naive_solver.
Qed.

Lemma format_row_split_witness :
  split TAB (rstrip (format_row (txt "S#chr1 x") (txt "chr1") (txt "E") 12))
  = [txt "S#chr1 x"; txt "chr1"; txt "E"; txt "12"].
Proof.
  apply (format_row_split (txt "S#chr1 x") (txt "chr1") (txt "E") 12);
    by_evaluation.
Defined.

(** ** Order of the tables *)

Lemma concat_Permutation {A} (ls ls' : list (list A)) :
  ls ≡ₚ ls' → concat ls ≡ₚ concat ls'.
Proof.
  induction 1 as [|x l l' _ IH|x y l|l l' l'' _ IH1 _ IH2]; simpl.
  - reflexivity.
  - by rewrite IH.
  - rewrite !app_assoc. by rewrite (Permutation_app_comm y x).
  - by rewrite IH1.
Qed.

(** X19: whether the join step succeeds does not depend on the order in which the
    per-sample tables are given. *)
Theorem join_header_table_order (tables tables' : list str) :
  Forall terminated tables →
  tables ≡ₚ tables' →
  (∃ T, join_header_table tables = Ok T) ↔
  (∃ T', join_header_table tables' = Ok T').
Proof.
  intros Hterm Hperm.
  assert (Forall terminated tables') as Hterm' by (by rewrite <- Hperm).
  assert (∀ ts, Forall terminated ts →
            (∃ T, join_header_table ts = Ok T) ↔
            NoDup (row_key <$> concat (table_rows <$> ts))) as Hiff.
  { intros ts Hts. rewrite <- table_rows_catFiles by exact Hts. split.
    - intros [T HT]. by apply join_header_table_Ok in HT as [_ ?].
    - intros Hnd. eexists. by apply join_header_table_NoDup. }
  rewrite !Hiff by assumption.
  assert (row_key <$> concat (table_rows <$> tables)
          ≡ₚ row_key <$> concat (table_rows <$> tables')) as ->; [|done].
  apply fmap_Permutation, concat_Permutation, fmap_Permutation, Hperm.
Qed.

Lemma join_header_table_order_witness :
  ∃ T', join_header_table
          [format_row (txt "chr2") (txt "chr2") (txt "B") 2;
           format_row (txt "chr1") (txt "chr1") (txt "A") 4] = Ok T'.
Proof.
  apply (join_header_table_order
           [format_row (txt "chr1") (txt "chr1") (txt "A") 4;
            format_row (txt "chr2") (txt "chr2") (txt "B") 2]).
  - apply List.Forall_cons; [right; eexists; apply format_row_body|].
    apply List.Forall_cons; [right; eexists; apply format_row_body|].
    apply List.Forall_nil.
  - apply perm_swap.
  - eexists. vm_compute. reflexivity.
Defined.

(** ** Blank lines *)

Lemma rstrip_blank (l : str) :
  Forall (λ c, is_space c = true) l → rstrip l = [].
Proof. induction 1 as [|c l Hc _ IH]; [reflexivity|]. simpl. by rewrite IH, Hc. Qed.

(** X20: splitting never gives an empty list, so the test of line 143 holds for
    every line and a blank line is checked like any other, with the empty
    string as its header: the second blank line of a table whose earlier
    lines have distinct headers stops the join step with the duplicate-header
    error for the empty header. *)
Theorem join_header_table_blank_lines (header_tables : list str)
    (pre : list str) (blank : str) (mid : list str) (blank' : str)
    (post : list str) :
  table_rows (catFiles header_tables)
    = pre ++ blank :: mid ++ blank' :: post →
  Forall (λ c, is_space c = true) blank →
  Forall (λ c, is_space c = true) blank' →
  NoDup (row_key <$> pre ++ blank :: mid) →
  split TAB (rstrip blank') = [[]] ∧
  join_header_table header_tables
  = Raise (RuntimeError (duplicate_header_msg [])).
Proof.
  intros Hrows Hb Hb' Hnd.
  assert (row_key blank = []) as Hk by (unfold row_key; by rewrite rstrip_blank).
  assert (row_key blank' = []) as Hk' by (unfold row_key; by rewrite rstrip_blank).
  split; [by rewrite rstrip_blank|].
  rewrite <- Hk'.
  apply (join_header_table_first_repeat _ (pre ++ blank :: mid) blank' post).
  - by rewrite Hrows, <- app_assoc.
  - exact Hnd.
  - rewrite Hk', fmap_app, fmap_cons, Hk. apply elem_of_app. right.
    apply list_elem_of_here.
Qed.

Lemma join_header_table_blank_lines_witness :
  join_header_table
    [format_row (txt "chr1") (txt "chr1") (txt "A") 4 ++ [LF; LF]]
  = Raise (RuntimeError (duplicate_header_msg [])).
Proof.
  refine (proj2 (join_header_table_blank_lines
            [format_row (txt "chr1") (txt "chr1") (txt "A") 4 ++ [LF; LF]]
            [format_row (txt "chr1") (txt "chr1") (txt "A") 4]
            [LF] [] [LF] [] _ _ _ _)).
  - vm_compute. reflexivity.
  - repeat constructor.
  - repeat constructor.
  - by_evaluation.
Defined.

(** * Further properties of [make_one_header_table] *)

Lemma cut_header_Raise_falsy_occ (h : str) (cb : option str) (occ : option Z)
    (ca : option str) (e : exn) :
  Py.truthy_int occ = false →
  cut_header h cb occ ca = Raise e → e = NameError "seq_record".
Proof.
  intros Hocc. unfold cut_header.
  destruct (cut_before_stage h cb occ) as [h1|e'] eqn:Hb.
  - simpl. destruct (cut_after_stage h1 ca); [|discriminate].
    rewrite check_header_empty. by intros [= <-].
  - apply cut_before_stage_Raise in Hb as (_ & k & -> & Hk).
    by destruct k.
Qed.

Lemma write_rows_Raise_falsy_occ (ev : str) (cb : option str)
    (occ : option Z) (ca : option str) (fa : list SeqRecord) (acc : str) :
  Py.truthy_int occ = false →
  Exists (λ r, ∃ e, header_row cut_header ev cb occ ca r = Raise e) fa →
  write_rows cut_header ev cb occ ca fa acc = Raise (NameError "seq_record").
Proof.
  intros Hocc H. revert acc. induction fa as [|r fa IH]; intros acc.
  - by apply Exists_nil in H.
  - simpl write_rows.
    destruct (header_row cut_header ev cb occ ca r) as [row|e] eqn:E.
    + rewrite bind_Ok. apply IH.
      apply Exists_cons in H as [[e He]|H]; [congruence | exact H].
    + simpl. f_equal. unfold header_row in E.
      destruct (Py.truthy cb || Py.truthy ca); [|discriminate].
      destruct (cut_header _ _ _ _) as [hd|e'] eqn:Ec; [discriminate|].
      injection E as <-. by eapply cut_header_Raise_falsy_occ.
Qed.

(** X21: with [cut_before] set, no occurrence index and no [cut_after], one record
    whose description ends with a [cut_before] character makes the whole
    table of its file fail, with the [NameError] of the emptiness check,
    wherever the record stands in the file. *)
Theorem make_one_header_table_emptied_header (fa : list SeqRecord)
    (event cb : str) (occ : option Z) (ca : option str) (r : SeqRecord)
    (pre : str) (c : ascii) :
  r ∈ fa →
  description r = pre ++ [c] →
  c ∈ cb →
  Py.truthy_int occ = false →
  Py.truthy ca = false →
  make_one_header_table fa event (Some cb) occ ca
  = Raise (NameError "seq_record").
Proof.
  intros Hr Hd Hc Hocc Hca.
  apply write_rows_Raise_falsy_occ; [exact Hocc|].
  apply Exists_exists. exists r. split; [exact Hr|].
  exists (NameError "seq_record"). unfold header_row.
  rewrite (truthy_Some cb c Hc). simpl orb. rewrite Hd.
  rewrite (cut_header_emptied _ []); [reflexivity | |by apply cut_after_stage_falsy].
  apply cut_before_stage_last; [exact Hc | constructor | exact Hocc].
Qed.

Lemma make_one_header_table_emptied_header_witness :
  make_one_header_table
    [mkSeqRecord (txt "S#chr1") (txt "ACGT"); mkSeqRecord (txt "S#") (txt "AC")]
    (txt "E") (Some (txt "#")) None None
  = Raise (NameError "seq_record").
Proof.
  apply (make_one_header_table_emptied_header _ (txt "E") (txt "#") None None
           (mkSeqRecord (txt "S#") (txt "AC")) (txt "S") "#"%char).
  - apply list_elem_of_further, list_elem_of_here.
  - reflexivity.
  - vm_compute. apply list_elem_of_here.
  - reflexivity.
  - reflexivity.
Defined.

Lemma write_rows_acc
    (cutter : str → option str → option Z → option str → result str)
    (ev : str) (cb : option str) (occ : option Z) (ca : option str)
    (fa : list SeqRecord) (acc : str) :
  write_rows cutter ev cb occ ca fa acc
  = (do t <- write_rows cutter ev cb occ ca fa []; Ok (acc ++ t)).
Proof.
  revert acc. induction fa as [|r fa IH]; intros acc.
  - simpl. by rewrite app_nil_r.
  - simpl write_rows. destruct (header_row cutter ev cb occ ca r) as [row|e];
      [|reflexivity].
    rewrite !bind_Ok. rewrite (IH (acc ++ row)), (IH row).
    destruct (write_rows cutter ev cb occ ca fa []) as [t|e]; [|reflexivity].
    simpl. by rewrite app_assoc.
Qed.

Lemma write_rows_app
    (cutter : str → option str → option Z → option str → result str)
    (ev : str) (cb : option str) (occ : option Z) (ca : option str)
    (fa1 fa2 : list SeqRecord) (acc : str) :
  write_rows cutter ev cb occ ca (fa1 ++ fa2) acc
  = (do t <- write_rows cutter ev cb occ ca fa1 acc;
     write_rows cutter ev cb occ ca fa2 t).
Proof.
  revert acc. induction fa1 as [|r fa1 IH]; intros acc; [reflexivity|].
  simpl. destruct (header_row cutter ev cb occ ca r); [|reflexivity].
  rewrite !bind_Ok. apply IH.
Qed.

(** X22: the table of a file is the table of its first records followed by the
    table of the remaining ones; it fails as soon as one of the two does, the
    first part first. *)
Theorem make_one_header_table_app (fa1 fa2 : list SeqRecord) (event : str)
    (cut_before : option str) (cut_before_occ : option Z)
    (cut_after : option str) :
  make_one_header_table (fa1 ++ fa2) event cut_before cut_before_occ cut_after
  = (do t1 <- make_one_header_table fa1 event
                cut_before cut_before_occ cut_after;
     do t2 <- make_one_header_table fa2 event
                cut_before cut_before_occ cut_after;
     Ok (t1 ++ t2)).
Proof.
  unfold make_one_header_table, make_one_header_table_with.
  rewrite write_rows_app.
  destruct (write_rows cut_header event _ _ _ fa1 []) as [t1|e]; [|reflexivity].
  rewrite !bind_Ok. apply write_rows_acc.
Qed.

(** * Occurrence index at or beyond the number of matches *)

(** X23: a positive occurrence index that is not smaller than the number of
    matching characters of the header gives what no occurrence index gives:
    the cut after the last match, or no cut when nothing matches. *)
Theorem cut_header_large_occurrence (h cb : str) (k : Z) (ca : option str) :
  (0 < k)%Z →
  (Z.of_nat (matches cb h) ≤ k)%Z →
  cut_header h (Some cb) (Some k) ca = cut_header h (Some cb) None ca.
Proof.
  intros Hk Hm.
  destruct (decide (Exists (λ x, x ∈ cb) h)) as [He|Hn].
  - apply Exists_exists in He.
    apply last_match_split in He as (pre & c & suf & -> & Hc & Hsuf).
    rewrite (cut_header_stages _ suf _ None)
      by (by apply cut_before_stage_last).
    apply cut_header_stages, cut_before_stage_split; [exact Hc|].
    assert (Py.truthy_int (Some k) = true) as Ht by (destruct k; done || lia).
    cbv zeta. rewrite Ht. cbn [negb default].
    unfold Py.len, id. rewrite occurrences_from_length.
    rewrite matches_app, matches_cons_in in * by exact Hc.
    rewrite (matches_none cb suf) in * by exact Hsuf.
    assert ((Z.of_nat (matches cb pre + 1) `min` k - 1 <? 0)%Z = false) as ->
      by (apply Z.ltb_ge; lia).
    lia.
  - apply not_Exists_matches in Hn.
    rewrite !(cut_header_stages h h)
      by (by apply (cut_before_stage_no_match h (Some cb))).
    reflexivity.
Qed.

Lemma cut_header_large_occurrence_witness :
  cut_header (txt "a#b#c") (Some (txt "#")) (Some 5%Z) None
  = cut_header (txt "a#b#c") (Some (txt "#")) None None.
Proof.
  apply (cut_header_large_occurrence (txt "a#b#c") (txt "#") 5 None).
  - lia.
  - vm_compute. discriminate.
Defined.
